(** * Claims risk: HCC mapping and claims processing

    A shallow embedding of [src/utils/hcc_mapping.py] (class [HCCMapper]) and
    [src/utils/data_processing.py] (class [ClaimsProcessor]), with the
    properties the specification states about them.

    Modelling conventions.
    - Python [dict]s are finite maps ([gmap]); [d[k]] on an absent key raises
      [KeyError], which is the [None] of the [option] monad, so that "never
      fails" is a statement and not a consequence of the encoding.
    - [set(...)] is a [gset]; [list(set(xs))] enumerates it in an order Python
      leaves unspecified, here the order of [elements].
    - Python [int] is [Z].  Python [float] weights, costs and scores are exact
      rationals ([Q], compared with [==]): the decimal literals of the source
      are read as the decimals they denote, and the rounding of binary
      floating point is outside the model.
    - [str] is [string] (ASCII); [str.lower] maps [A-Z] to [a-z].
    - A pandas [DataFrame] is its labelled, typed columns and its rows; a
      cell is a finite number, the missing value or a string.  Frames live in
      a store of references, so that in-place column assignment and the
      copies made by [copy], [drop_duplicates] and boolean indexing are told
      apart.  The string-to-number parser, the number formatter and
      [quantile] of pandas are parameters ([Pandas]). *)

From Stdlib Require Import QArith Qminmax Lqa ZArith Ascii String.
From stdpp Require Import gmap strings list fin_maps fin_sets.

Local Open Scope string_scope.

(** ** Python primitives *)

Module Py.

(** Truth value of an [int]: everything but [0] is truthy. *)
Definition truthy (n : Z) : bool := negb (n =? 0)%Z.

(** Truth value of a [str]: everything but the empty string is truthy. *)
Definition truthy_str (s : string) : bool :=
  match s with EmptyString => false | String _ _ => true end.

(** [k in d]. *)
Definition contains `{Countable K} {V} (d : gmap K V) (k : K) : bool :=
  bool_decide (is_Some (d !! k)).

(** [d[k]]: [None] stands for [KeyError]. *)
Definition getitem `{Countable K} {V} (d : gmap K V) (k : K) : option V :=
  d !! k.

(** [max(a, b)] on numbers: the first argument unless the second is
    strictly greater. *)
Definition max (a b : Q) : Q := if Qlt_le_dec a b then b else a.

Definition lower_ascii (c : ascii) : ascii :=
  let n := nat_of_ascii c in
  if (65 <=? n)%nat && (n <=? 90)%nat then ascii_of_nat (n + 32) else c.

(** [s.lower()]. *)
Fixpoint lower (s : string) : string :=
  match s with
  | EmptyString => EmptyString
  | String c s' => String (lower_ascii c) (lower s')
  end.

End Py.

(** Sum of a list of rationals. *)
Definition sumQ (l : list Q) : Q := foldr Qplus 0%Q l.

(** ** [HCCMapper] *)

(** The three tables [__init__] stores on the instance. *)
Record HCCMapper := {
  hcc_mapping : gmap string (list string);
  hcc_weights : gmap string Q;
  age_sex_coefficients : gmap (string * Z) Q
}.

(** The keys [(g, 0)], ..., [(g, 100)] of the age-sex table, each with the
    coefficient [0.0], in the order of the literal. *)
Definition age_sex_rows (g : string) : list (string * Z * Q) :=
  (fun a : nat => (g, Z.of_nat a, 0.0%Q)) <$> seq 0 101.

(** The literal of [self.hcc_mapping]. *)
Definition hcc_mapping_items : list (string * list string) :=
  [
    ("diabetes", ["HCC_18"; "HCC_19"]);
    ("diabetes_complications", ["HCC_17"; "HCC_18"; "HCC_19"]);
    ("hypertension", ["HCC_85"; "HCC_86"]);
    ("heart_disease", ["HCC_85"; "HCC_88"; "HCC_96"]);
    ("heart_failure", ["HCC_85"; "HCC_88"]);
    ("stroke", ["HCC_100"; "HCC_101"]);
    ("copd", ["HCC_111"; "HCC_112"]);
    ("asthma", ["HCC_111"]);
    ("cancer", ["HCC_8"; "HCC_9"; "HCC_10"; "HCC_11"; "HCC_12"]);
    ("breast_cancer", ["HCC_9"]);
    ("lung_cancer", ["HCC_8"]);
    ("prostate_cancer", ["HCC_10"]);
    ("kidney_disease", ["HCC_136"; "HCC_137"]);
    ("dialysis", ["HCC_136"]);
    ("mental_health", ["HCC_57"; "HCC_58"; "HCC_59"]);
    ("depression", ["HCC_58"]);
    ("anxiety", ["HCC_57"]);
    ("bipolar", ["HCC_59"]);
    ("arthritis", ["HCC_40"; "HCC_41"]);
    ("osteoporosis", ["HCC_40"]);
    ("alzheimer", ["HCC_51"; "HCC_52"]);
    ("parkinson", ["HCC_51"]);
    ("hiv", ["HCC_1"; "HCC_2"]);
    ("substance_abuse", ["HCC_54"; "HCC_55"])
  ].

(** The literal of [self.hcc_weights]. *)
Definition hcc_weights_items : list (string * Q) :=
  [
    ("HCC_1", 1.0%Q);
    ("HCC_2", 0.8%Q);
    ("HCC_8", 2.5%Q);
    ("HCC_9", 1.8%Q);
    ("HCC_10", 1.5%Q);
    ("HCC_11", 2.0%Q);
    ("HCC_12", 2.2%Q);
    ("HCC_17", 0.5%Q);
    ("HCC_18", 1.2%Q);
    ("HCC_19", 1.5%Q);
    ("HCC_40", 0.3%Q);
    ("HCC_41", 0.4%Q);
    ("HCC_51", 1.8%Q);
    ("HCC_52", 1.5%Q);
    ("HCC_54", 0.6%Q);
    ("HCC_55", 0.8%Q);
    ("HCC_57", 0.4%Q);
    ("HCC_58", 0.5%Q);
    ("HCC_59", 0.7%Q);
    ("HCC_85", 0.8%Q);
    ("HCC_86", 0.6%Q);
    ("HCC_88", 1.2%Q);
    ("HCC_96", 1.0%Q);
    ("HCC_100", 1.5%Q);
    ("HCC_101", 1.8%Q);
    ("HCC_111", 0.7%Q);
    ("HCC_112", 1.0%Q);
    ("HCC_136", 2.0%Q);
    ("HCC_137", 1.5%Q)
  ].

(** The literal of [self.age_sex_coefficients]. *)
Definition age_sex_coefficients_items : list (string * Z * Q) :=
  age_sex_rows "male" ++ age_sex_rows "female".

(** [HCCMapper.__init__]. *)
Definition HCCMapper_init : HCCMapper := {|
  hcc_mapping := list_to_map hcc_mapping_items;
  hcc_weights := list_to_map hcc_weights_items;
  age_sex_coefficients := list_to_map age_sex_coefficients_items
|}.

(** The body of the loop of [map_conditions_to_hcc]: [items] is what is left
    of [conditions.items()], [hcc_codes] the list built so far. *)
Fixpoint extend_codes (self : HCCMapper) (items : list (string * Z))
    (hcc_codes : list string) : option (list string) :=
  match items with
  | [] => Some hcc_codes
  | (condition, present) :: rest =>
      if Py.truthy present && Py.contains (hcc_mapping self) condition
      then cs ← Py.getitem (hcc_mapping self) condition;
           extend_codes self rest (hcc_codes ++ cs)
      else extend_codes self rest hcc_codes
  end.

(** [HCCMapper.map_conditions_to_hcc]. *)
Definition map_conditions_to_hcc (self : HCCMapper)
    (conditions : gmap string Z) : option (list string) :=
  hcc_codes ← extend_codes self (map_to_list conditions) [];
  Some (elements (list_to_set hcc_codes : gset string)).

(** The loop of [calculate_hcc_score] that adds up the weights. *)
Fixpoint add_weights (self : HCCMapper) (hcc_codes : list string)
    (hcc_score : Q) : option Q :=
  match hcc_codes with
  | [] => Some hcc_score
  | hcc_code :: rest =>
      if Py.contains (hcc_weights self) hcc_code
      then w ← Py.getitem (hcc_weights self) hcc_code;
           add_weights self rest (hcc_score + w)%Q
      else add_weights self rest hcc_score
  end.

(** [age_group = min(age // 1, 100)]. *)
Definition age_group (age : Z) : Z := Z.min (age / 1) 100.

(** [gender_key = gender.lower() if gender else 'unknown']. *)
Definition gender_key (gender : string) : string :=
  if Py.truthy_str gender then Py.lower gender else "unknown".

(** The age-sex lookup of [calculate_hcc_score], with its [else] branch. *)
Definition age_sex_coeff (self : HCCMapper) (age : Z) (gender : string)
    : option Q :=
  if Py.contains (age_sex_coefficients self) (gender_key gender, age_group age)
  then Py.getitem (age_sex_coefficients self) (gender_key gender, age_group age)
  else Some 0.0%Q.

(** [HCCMapper.calculate_hcc_score]. *)
Definition calculate_hcc_score (self : HCCMapper)
    (conditions : gmap string Z) (age : Z) (gender : string) : option Q :=
  hcc_codes ← map_conditions_to_hcc self conditions;
  hcc_score ← add_weights self hcc_codes 0.0%Q;
  coeff ← age_sex_coeff self age gender;
  let final_score := (hcc_score + coeff)%Q in
  Some (Py.max 0.0%Q final_score).

(** ** What the tables say about a code, a condition, a condition set *)

(** Weight of a code, [0] for a code without an entry. *)
Definition weight_of (self : HCCMapper) (c : string) : Q :=
  default 0%Q (hcc_weights self !! c).

(** Category codes the catalog lists for a condition; none for a name that is
    not in the catalog. *)
Definition categories (self : HCCMapper) (cond : string) : list string :=
  default [] (hcc_mapping self !! cond).

(** Sum of the weights of the codes of a list. *)
Definition weight_sum (self : HCCMapper) (codes : list string) : Q :=
  sumQ (weight_of self <$> codes).

(** [c] is triggered: some condition with a truthy flag has it in the
    catalog. *)
Definition triggers (self : HCCMapper) (conditions : gmap string Z)
    (c : string) : Prop :=
  exists cond present cs,
    conditions !! cond = Some present /\ present <> 0%Z /\
    hcc_mapping self !! cond = Some cs /\ c ∈ cs.

(** The demographic adjustment: the table's entry at the key the code builds,
    [0] when the table has none. *)
Definition adjustment (self : HCCMapper) (age : Z) (gender : string) : Q :=
  default 0%Q (age_sex_coefficients self !! (gender_key gender, age_group age)).


(** ** Properties a table may have *)

(** No weight is negative. *)
Definition weights_nonneg (self : HCCMapper) : Prop :=
  forall c w, hcc_weights self !! c = Some w -> (0 <= w)%Q.

(** Every code of the catalog has a positive weight. *)
Definition catalog_weights_pos (self : HCCMapper) : Prop :=
  forall cond cs c,
    hcc_mapping self !! cond = Some cs -> c ∈ cs ->
    exists w, hcc_weights self !! c = Some w /\ (0 < w)%Q.

(** No catalog entry lists a code twice. *)
Definition catalog_nodup (self : HCCMapper) : Prop :=
  forall cond cs, hcc_mapping self !! cond = Some cs -> NoDup cs.

(** No age-sex coefficient is negative. *)
Definition coefficients_nonneg (self : HCCMapper) : Prop :=
  forall k v, age_sex_coefficients self !! k = Some v -> (0 <= v)%Q.

(** ** The adjustment key as the specification words it

    "Clip age to [0,100] and normalize gender to lowercase, falling back to a
    neutral/unknown bucket if unrecognized": stated here to be compared with
    [age_group] and [gender_key]. *)

Definition spec_age_group (age : Z) : Z := Z.max 0 (Z.min age 100).

Definition spec_gender_key (gender : string) : string :=
  let g := Py.lower gender in
  if bool_decide (g = "male" \/ g = "female") then g else "unknown".

(** ** Cells and the element-wise operations of pandas

    A cell is a finite number, the missing value ([NaN], also standing for
    [None]) or a string.  Numbers are exact rationals; the IEEE infinities
    are outside the model. *)

Inductive cell :=
| Num (q : Q)
| NaN
| Str (s : string).

(** What [select_dtypes] tells apart: [np.number], [object], and the rest
    (here the categorical result of [pd.cut]). *)
Inductive dtype := DNumber | DObject | DCategory.

Definition dtype_eqb (a b : dtype) : bool :=
  match a, b with
  | DNumber, DNumber | DObject, DObject | DCategory, DCategory => true
  | _, _ => false
  end.

(** The functions of pandas that are taken as given. *)
Record Pandas := {
  (** the number [pd.to_numeric] reads in a string, if any *)
  parse_number : string -> option Q;
  (** [str(x)] for a number, as [astype(str)] produces it *)
  format_number : Q -> string;
  (** [Series.quantile(q)] *)
  quantile : Q -> list cell -> cell
}.

(** [pd.to_numeric(s, errors='coerce')], on one element: what cannot be read
    as a number becomes [NaN]. *)
Definition to_numeric (pd : Pandas) (c : cell) : cell :=
  match c with
  | Num q => Num q
  | NaN => NaN
  | Str s => match parse_number pd s with Some q => Num q | None => NaN end
  end.

(** [s.astype(str)], on one element. *)
Definition astype_str (pd : Pandas) (c : cell) : cell :=
  match c with
  | Num q => Str (format_number pd q)
  | NaN => Str "nan"
  | Str s => Str s
  end.

(** Characters [str.strip] removes. *)
Definition is_space (c : ascii) : bool :=
  let n := nat_of_ascii c in
  ((9 <=? n)%nat && (n <=? 13)%nat) || ((28 <=? n)%nat && (n <=? 32)%nat).

Fixpoint lstrip (s : string) : string :=
  match s with
  | EmptyString => EmptyString
  | String c s' => if is_space c then lstrip s' else s
  end.

Fixpoint rstrip (s : string) : string :=
  match s with
  | EmptyString => EmptyString
  | String c s' =>
      match rstrip s' with
      | EmptyString => if is_space c then EmptyString else String c EmptyString
      | r => String c r
      end
  end.

(** [s.strip()]. *)
Definition strip (s : string) : string := rstrip (lstrip s).

(** [s.str.strip()] and [s.str.lower()], on one element: the [.str] accessor
    gives [NaN] on what is not a string. *)
Definition str_strip (c : cell) : cell :=
  match c with Str s => Str (strip s) | _ => NaN end.

Definition str_lower (c : cell) : cell :=
  match c with Str s => Str (Py.lower s) | _ => NaN end.

(** [s.map(d)] for a dict [d], on one element: [NaN] for what is not a key. *)
Definition map_dict (d : gmap string string) (c : cell) : cell :=
  match c with
  | Str s => match d !! s with Some v => Str v | None => NaN end
  | _ => NaN
  end.

(** [s.fillna(v)], on one element. *)
Definition fillna (v : cell) (c : cell) : cell :=
  match c with NaN => v | _ => c end.

(** [a <= b] and [a < b] on elements: a comparison with [NaN] is [False].
    The code compares columns only after [to_numeric], where no string is
    left. *)
Definition cell_leb (a b : cell) : bool :=
  match a, b with Num x, Num y => Qle_bool x y | _, _ => false end.

Definition cell_ltb (a b : cell) : bool :=
  match a, b with Num x, Num y => negb (Qle_bool y x) | _, _ => false end.

(** [b.astype(int)] for a boolean. *)
Definition astype_int (b : bool) : cell := Num (if b then 1 else 0)%Q.

(** [a / b] on elements.  Division by zero raises nothing in pandas: it
    yields an infinity or [nan], both rendered here by [NaN]. *)
Definition cell_div (a b : cell) : cell :=
  match a, b with
  | Num x, Num y => if Qeq_bool y 0 then NaN else Num (x / y)%Q
  | _, _ => NaN
  end.

(** [np.where(cond, a, b)] with a scalar [b]. *)
Definition np_where (cond : list bool) (a : list cell) (b : cell)
    : list cell :=
  zip_with (fun (c : bool) x => if c then x else b) cond a.

(** [pd.cut(age, bins=[0, 18, 35, 50, 65, 100], labels=[...],
    include_lowest=True)], on one element: the bins are [[0,18]], [(18,35]],
    [(35,50]], [(50,65]], [(65,100]]. *)
Definition cut_age (c : cell) : cell :=
  match c with
  | Num a =>
      if negb (Qle_bool 0 a) then NaN
      else if Qle_bool a 18 then Str "0-17"
      else if Qle_bool a 35 then Str "18-34"
      else if Qle_bool a 50 then Str "35-49"
      else if Qle_bool a 65 then Str "50-64"
      else if Qle_bool a 100 then Str "65+"
      else NaN
  | _ => NaN
  end.

(** Sum of the cells of a row of 0/1 flags, as [sum(axis=1)] does it: missing
    values are skipped. *)
Definition sum_cells (cs : list cell) : cell :=
  Num (sumQ (omap (fun c => match c with Num q => Some q | _ => None end) cs)).

(** Equality of cells as [drop_duplicates] sees it: two missing values are
    the same. *)
Definition cell_eqb (a b : cell) : bool :=
  match a, b with
  | Num x, Num y => Qeq_bool x y
  | NaN, NaN => true
  | Str s, Str t => String.eqb s t
  | _, _ => false
  end.

(** ** Data frames

    A frame is its column labels, each with its dtype, and its rows; a row
    carries its index label and maps column labels to cells.  Column labels
    are distinct. *)

Record DataFrame := {
  df_cols : list (string * dtype);
  df_rows : list (nat * gmap string cell)
}.

(** [df.columns]. *)
Definition column_names (f : DataFrame) : list string := (df_cols f).*1.

(** The cell of a row in a column. *)
Definition cell_at (c : string) (r : gmap string cell) : cell :=
  default NaN (r !! c).

(** [df[c]], as the list of its cells in row order. *)
Definition column (c : string) (f : DataFrame) : list cell :=
  (fun ir : nat * gmap string cell => cell_at c ir.2) <$> df_rows f.

(** The labels after [df[c] = ...]: a new column goes last. *)
Definition set_dtype (c : string) (dt : dtype) (cols : list (string * dtype))
    : list (string * dtype) :=
  if bool_decide (c ∈ cols.*1)
  then (fun cd : string * dtype =>
          if bool_decide (cd.1 = c) then (c, dt) else cd) <$> cols
  else (cols ++ [(c, dt)])%list.

(** [df[c] = s] for a series [s] as long as the frame. *)
Definition frame_set (c : string) (dt : dtype) (s : list cell)
    (f : DataFrame) : DataFrame :=
  {| df_cols := set_dtype c dt (df_cols f);
     df_rows := zip_with (fun (ir : nat * gmap string cell) v =>
                            (ir.1, <[c:=v]> ir.2)) (df_rows f) s |}.

(** [df[mask]] for a boolean series [mask] as long as the frame. *)
Definition frame_mask (mask : list bool) (f : DataFrame) : DataFrame :=
  {| df_cols := df_cols f;
     df_rows := (filter (fun p : nat * gmap string cell * bool =>
                           p.2 = true) (zip (df_rows f) mask)).*1 |}.

(** Two rows agree on the given columns. *)
Definition row_eqb (cols : list string) (r1 r2 : gmap string cell) : bool :=
  forallb (fun c => cell_eqb (cell_at c r1) (cell_at c r2)) cols.

(** The rows [drop_duplicates] keeps: the first of each group of equal rows;
    [seen] holds the rows kept so far. *)
Fixpoint keep_first (cols : list string) (seen : list (gmap string cell))
    (rs : list (nat * gmap string cell)) : list (nat * gmap string cell) :=
  match rs with
  | [] => []
  | ir :: rest =>
      if existsb (row_eqb cols ir.2) seen
      then keep_first cols seen rest
      else ir :: keep_first cols (ir.2 :: seen) rest
  end.

(** [df.drop_duplicates()]. *)
Definition frame_drop_duplicates (f : DataFrame) : DataFrame :=
  {| df_cols := df_cols f;
     df_rows := keep_first (column_names f) [] (df_rows f) |}.

(** [df[cols].sum(axis=1)]. *)
Definition frame_sum_axis1 (cols : list string) (f : DataFrame) : list cell :=
  (fun ir : nat * gmap string cell =>
     sum_cells ((fun c => cell_at c ir.2) <$> cols)) <$> df_rows f.

(** [df.select_dtypes(include=[dt]).columns]. *)
Definition frame_select_dtypes (dt : dtype) (f : DataFrame) : list string :=
  (filter (fun cd : string * dtype => dtype_eqb cd.2 dt = true) (df_cols f)).*1.

(** ** The store of frames

    Python variables hold references.  A frame lives at a location of the
    store; [df[c] = ...] updates the frame in place, while [df.copy()],
    [df.drop_duplicates()] and [df[mask]] make a new frame at a new
    location. *)

Inductive exn :=
| ValueError (msg : string)   (* [raise ValueError(msg)] *)
| KeyError (key : string)     (* [df[key]] on an absent column *)
| LengthMismatch              (* a series that is not as long as the frame *)
| Dangling.                   (* a reference to no frame *)

Inductive result (A : Type) :=
| Ok (a : A)
| Raise (e : exn).
Arguments Ok {A} a.
Arguments Raise {A} e.

(** Computations that read and update the store and may raise; the store
    survives an exception. *)
Definition M (A : Type) : Type :=
  gmap nat DataFrame -> result A * gmap nat DataFrame.

Definition ret {A} (a : A) : M A := fun h => (Ok a, h).

Definition bind {A B} (m : M A) (k : A -> M B) : M B :=
  fun h => match m h with
           | (Ok a, h') => k a h'
           | (Raise e, h') => (Raise e, h')
           end.

Definition raise {A} (e : exn) : M A := fun h => (Raise e, h).

#[export] Instance M_ret : MRet M := @ret.
#[export] Instance M_bind : MBind M := fun A B k m => bind m k.

Definition read (l : nat) : M DataFrame :=
  fun h => match h !! l with
           | Some f => (Ok f, h)
           | None => (Raise Dangling, h)
           end.

Definition write (l : nat) (f : DataFrame) : M unit :=
  fun h => (Ok tt, <[l:=f]> h).

Definition alloc (f : DataFrame) : M nat :=
  fun h => let l := fresh (dom h) in (Ok l, <[l:=f]> h).

(** [df.copy()]. *)
Definition df_copy (df : nat) : M nat := f ← read df; alloc f.

(** [df.columns]. *)
Definition df_columns (df : nat) : M (list string) :=
  f ← read df; mret (column_names f).

(** [df[c]]. *)
Definition df_getitem (df : nat) (c : string) : M (list cell) :=
  f ← read df;
  if bool_decide (c ∈ column_names f) then mret (column c f)
  else raise (KeyError c).

(** [df[c] = s]. *)
Definition df_setitem (df : nat) (c : string) (dt : dtype) (s : list cell)
    : M unit :=
  f ← read df;
  if bool_decide (length s = length (df_rows f))
  then write df (frame_set c dt s f)
  else raise LengthMismatch.

(** [df[c] = v] for a scalar [v]. *)
Definition df_setitem_scalar (df : nat) (c : string) (dt : dtype) (v : cell)
    : M unit :=
  f ← read df;
  write df (frame_set c dt (replicate (length (df_rows f)) v) f).

(** [df[mask]]. *)
Definition df_mask (df : nat) (mask : list bool) : M nat :=
  f ← read df;
  if bool_decide (length mask = length (df_rows f))
  then alloc (frame_mask mask f)
  else raise LengthMismatch.

(** [df.drop_duplicates()]. *)
Definition df_drop_duplicates (df : nat) : M nat :=
  f ← read df; alloc (frame_drop_duplicates f).

(** [df[cols].sum(axis=1)]. *)
Definition df_sum_axis1 (df : nat) (cols : list string) : M (list cell) :=
  f ← read df;
  match filter (fun c => c ∉ column_names f) cols with
  | [] => mret (frame_sum_axis1 cols f)
  | c :: _ => raise (KeyError c)
  end.

(** [df.select_dtypes(include=[dt]).columns]. *)
Definition df_select_dtypes (df : nat) (dt : dtype) : M (list string) :=
  f ← read df; mret (frame_select_dtypes dt f).

(** [for x in xs: body]. *)
Fixpoint for_each {A} (xs : list A) (body : A -> M unit) : M unit :=
  match xs with
  | [] => mret tt
  | x :: rest => _ ← body x; for_each rest body
  end.

(** ** [ClaimsProcessor] *)

(** The two lists [__init__] stores on the instance. *)
Record ClaimsProcessor := {
  required_columns : list string;
  optional_columns : list string
}.

(** [ClaimsProcessor.__init__]. *)
Definition ClaimsProcessor_init : ClaimsProcessor := {|
  required_columns :=
    ["member_id"; "age"; "gender"; "total_cost"; "total_claims"];
  optional_columns :=
    ["diabetes"; "hypertension"; "heart_disease"; "copd";
     "cancer"; "kidney_disease"; "mental_health"]
|}.

(** [repr] of a list of strings, as an f-string prints it. *)
Definition repr_list (l : list string) : string :=
  "[" ++ String.concat ", " ((fun s => "'" ++ s ++ "'") <$> l) ++ "]".

(** *** [_clean_data] *)

(** The local [gender_mapping]. *)
Definition gender_mapping : gmap string string :=
  list_to_map [
    ("m", "male"); ("f", "female"); ("male", "male"); ("female", "female");
    ("1", "male"); ("0", "female"); ("m", "male"); ("f", "female")
  ].

(** The local [condition_columns]. *)
Definition condition_columns : list string :=
  ["diabetes"; "hypertension"; "heart_disease"; "copd";
   "cancer"; "kidney_disease"; "mental_health"].

(** [# Clean member IDs]. *)
Definition clean_member_id (pd : Pandas) (df : nat) : M unit :=
  cols ← df_columns df;
  if bool_decide ("member_id" ∈ cols) then
    s ← df_getitem df "member_id";
    df_setitem df "member_id" DObject (str_strip <$> (astype_str pd <$> s))
  else mret tt.

(** [# Clean age data]: the frame without unrealistic ages is a new one. *)
Definition clean_age (pd : Pandas) (df : nat) : M nat :=
  cols ← df_columns df;
  if bool_decide ("age" ∈ cols) then
    s ← df_getitem df "age";
    _ ← df_setitem df "age" DNumber (to_numeric pd <$> s);
    a ← df_getitem df "age";
    b ← df_getitem df "age";
    df_mask df (zip_with andb (cell_leb (Num 0) <$> a)
                              ((fun x => cell_leb x (Num 120)) <$> b))
  else mret df.

(** [# Clean gender data]. *)
Definition clean_gender (pd : Pandas) (df : nat) : M unit :=
  cols ← df_columns df;
  if bool_decide ("gender" ∈ cols) then
    s ← df_getitem df "gender";
    _ ← df_setitem df "gender" DObject
          (str_strip <$> (str_lower <$> (astype_str pd <$> s)));
    g ← df_getitem df "gender";
    df_setitem df "gender" DObject
      (fillna (Str "unknown") <$> (map_dict gender_mapping <$> g))
  else mret tt.

(** [# Clean cost data] and [# Clean claims count]: the same code on the
    column [col]. *)
Definition clean_amount (pd : Pandas) (col : string) (df : nat) : M nat :=
  cols ← df_columns df;
  if bool_decide (col ∈ cols) then
    s ← df_getitem df col;
    _ ← df_setitem df col DNumber (to_numeric pd <$> s);
    a ← df_getitem df col;
    df_mask df (cell_leb (Num 0) <$> a)
  else mret df.

(** The body of the loop of [# Clean condition flags]. *)
Definition clean_condition (pd : Pandas) (df : nat) (col : string) : M unit :=
  cols ← df_columns df;
  if bool_decide (col ∈ cols) then
    s ← df_getitem df col;
    _ ← df_setitem df col DNumber (fillna (Num 0) <$> (to_numeric pd <$> s));
    t ← df_getitem df col;
    df_setitem df col DNumber
      ((fun x => astype_int (cell_ltb (Num 0) x)) <$> t)
  else mret tt.

(** [ClaimsProcessor._clean_data]. *)
Definition _clean_data (pd : Pandas) (df : nat) : M nat :=
  df ← df_drop_duplicates df;
  _ ← clean_member_id pd df;
  df ← clean_age pd df;
  _ ← clean_gender pd df;
  df ← clean_amount pd "total_cost" df;
  df ← clean_amount pd "total_claims" df;
  _ ← for_each condition_columns (clean_condition pd df);
  mret df.

(** *** [_add_derived_features] *)

(** [# Cost per claim]. *)
Definition add_cost_per_claim (df : nat) : M unit :=
  cols ← df_columns df;
  if bool_decide ("total_cost" ∈ cols) && bool_decide ("total_claims" ∈ cols)
  then
    n ← df_getitem df "total_claims";
    c ← df_getitem df "total_cost";
    d ← df_getitem df "total_claims";
    df_setitem df "cost_per_claim" DNumber
      (np_where (cell_ltb (Num 0) <$> n) (zip_with cell_div c d) (Num 0))
  else mret tt.

(** [# Age groups]. *)
Definition add_age_group (df : nat) : M unit :=
  cols ← df_columns df;
  if bool_decide ("age" ∈ cols) then
    s ← df_getitem df "age";
    df_setitem df "age_group" DCategory (cut_age <$> s)
  else mret tt.

(** The three condition counts: the row sum of the available columns, or the
    scalar 0 when there is none. *)
Definition add_condition_count (df : nat) (name : string)
    (available : list string) : M unit :=
  match available with
  | _ :: _ => s ← df_sum_axis1 df available; df_setitem df name DNumber s
  | [] => df_setitem_scalar df name DNumber (Num 0)
  end.

(** [# Utilization flags]: at or above the 0.8 quantile of the column. *)
Definition add_top_flag (pd : Pandas) (df : nat) (col flag : string)
    : M unit :=
  cols ← df_columns df;
  if bool_decide (col ∈ cols) then
    s ← df_getitem df col;
    let threshold := quantile pd 0.8%Q s in
    t ← df_getitem df col;
    df_setitem df flag DNumber
      ((fun x => astype_int (cell_leb threshold x)) <$> t)
  else mret tt.

(** [# Risk flags]. *)
Definition add_risk_flags (df : nat) : M unit :=
  cols ← df_columns df;
  if bool_decide ("age" ∈ cols) then
    a ← df_getitem df "age";
    _ ← df_setitem df "elderly" DNumber
          ((fun x => astype_int (cell_leb (Num 65) x)) <$> a);
    b ← df_getitem df "age";
    c ← df_getitem df "age";
    df_setitem df "young_adult" DNumber
      (astype_int <$> zip_with andb (cell_leb (Num 18) <$> b)
                                    ((fun x => cell_leb x (Num 35)) <$> c))
  else mret tt.

(** [ClaimsProcessor._add_derived_features]. *)
Definition _add_derived_features (pd : Pandas) (df : nat) : M nat :=
  _ ← add_cost_per_claim df;
  _ ← add_age_group df;
  cols ← df_columns df;
  let chronic_conditions := ["diabetes"; "hypertension"; "heart_disease"; "copd"] in
  let available_chronic := filter (fun col => col ∈ cols) chronic_conditions in
  _ ← add_condition_count df "chronic_condition_count" available_chronic;
  cols ← df_columns df;
  let high_cost_conditions := ["cancer"; "kidney_disease"; "mental_health"] in
  let available_high_cost :=
    filter (fun col => col ∈ cols) high_cost_conditions in
  _ ← add_condition_count df "high_cost_condition_count" available_high_cost;
  let all_conditions := (available_chronic ++ available_high_cost)%list in
  _ ← add_condition_count df "total_condition_count" all_conditions;
  _ ← add_top_flag pd df "total_claims" "high_utilizer";
  _ ← add_top_flag pd df "total_cost" "high_cost_member";
  _ ← add_risk_flags df;
  mret df.

(** *** [_handle_missing_values] *)

(** The body of both loops: [if col in df.columns: df[col] =
    df[col].fillna(v)]. *)
Definition fill_column (df : nat) (dt : dtype) (v : cell) (col : string)
    : M unit :=
  cols ← df_columns df;
  if bool_decide (col ∈ cols) then
    s ← df_getitem df col;
    df_setitem df col dt (fillna v <$> s)
  else mret tt.

(** [ClaimsProcessor._handle_missing_values]. *)
Definition _handle_missing_values (df : nat) : M nat :=
  numeric_columns ← df_select_dtypes df DNumber;
  _ ← for_each numeric_columns (fill_column df DNumber (Num 0));
  categorical_columns ← df_select_dtypes df DObject;
  _ ← for_each categorical_columns (fill_column df DObject (Str "unknown"));
  mret df.

(** *** [_validate_data_quality] *)

(** One guarded look at a column: the statistics computed from it (counts of
    negative or unrealistic values, [nunique], mean, median, std) are only
    logged, and several reads under one guard are rendered as one. *)
Definition inspect (df : nat) (col : string) : M unit :=
  cols ← df_columns df;
  if bool_decide (col ∈ cols) then _ ← df_getitem df col; mret tt
  else mret tt.

(** [ClaimsProcessor._validate_data_quality]: reads and logs. *)
Definition _validate_data_quality (df : nat) : M unit :=
  _ ← inspect df "total_cost";
  _ ← inspect df "total_claims";
  _ ← inspect df "age";
  _ ← inspect df "member_id";
  inspect df "total_cost".

(** *** [process_claims] *)

(** [ClaimsProcessor.process_claims]. *)
Definition process_claims (pd : Pandas) (self : ClaimsProcessor) (df : nat)
    : M nat :=
  processed_df ← df_copy df;
  cols ← df_columns processed_df;
  let missing_columns :=
    filter (fun col => col ∉ cols) (required_columns self) in
  match missing_columns with
  | _ :: _ =>
      raise (ValueError ("Missing required columns: " ++
                         repr_list missing_columns))
  | [] =>
      processed_df ← _clean_data pd processed_df;
      processed_df ← _add_derived_features pd processed_df;
      processed_df ← _handle_missing_values processed_df;
      _ ← _validate_data_quality processed_df;
      mret processed_df
  end.

(** ** What each block does to the frame it is given

    A vectorised statement over the columns of one frame acts row by row:
    [assign] is [df[c] = g(row)], [keep] is [df[p(row)]].  The functions below
    give, block by block, the frame the code computes; the lemmas on the
    store relate the code to them. *)

(** A series computed row by row. *)
Definition rowwise {A} (g : gmap string cell -> A) (f : DataFrame) : list A :=
  (fun ir : nat * gmap string cell => g ir.2) <$> df_rows f.

Definition assign (c : string) (dt : dtype) (g : gmap string cell -> cell)
    (f : DataFrame) : DataFrame :=
  {| df_cols := set_dtype c dt (df_cols f);
     df_rows := (fun ir : nat * gmap string cell =>
                   (ir.1, <[c := g ir.2]> ir.2)) <$> df_rows f |}.

Definition keep (p : gmap string cell -> bool) (f : DataFrame) : DataFrame :=
  {| df_cols := df_cols f;
     df_rows := filter (fun ir : nat * gmap string cell => p ir.2 = true)
                       (df_rows f) |}.

Definition has_column (c : string) (f : DataFrame) : bool :=
  bool_decide (c ∈ column_names f).

Definition clean_member_id_frame (pd : Pandas) (f : DataFrame) : DataFrame :=
  if has_column "member_id" f
  then assign "member_id" DObject
         (fun r => str_strip (astype_str pd (cell_at "member_id" r))) f
  else f.

(** An age is realistic when it is a number from 0 to 120. *)
Definition age_ok (r : gmap string cell) : bool :=
  cell_leb (Num 0) (cell_at "age" r) && cell_leb (cell_at "age" r) (Num 120).

Definition clean_age_frame (pd : Pandas) (f : DataFrame) : DataFrame :=
  if has_column "age" f
  then keep age_ok
         (assign "age" DNumber (fun r => to_numeric pd (cell_at "age" r)) f)
  else f.

Definition clean_gender_frame (pd : Pandas) (f : DataFrame) : DataFrame :=
  if has_column "gender" f
  then assign "gender" DObject
         (fun r => fillna (Str "unknown")
                     (map_dict gender_mapping (cell_at "gender" r)))
         (assign "gender" DObject
            (fun r => str_strip (str_lower (astype_str pd (cell_at "gender" r))))
            f)
  else f.

Definition clean_amount_frame (pd : Pandas) (col : string) (f : DataFrame)
    : DataFrame :=
  if has_column col f
  then keep (fun r => cell_leb (Num 0) (cell_at col r))
         (assign col DNumber (fun r => to_numeric pd (cell_at col r)) f)
  else f.

Definition clean_condition_frame (pd : Pandas) (col : string) (f : DataFrame)
    : DataFrame :=
  if has_column col f
  then assign col DNumber
         (fun r => astype_int (cell_ltb (Num 0) (cell_at col r)))
         (assign col DNumber
            (fun r => fillna (Num 0) (to_numeric pd (cell_at col r))) f)
  else f.

(** A loop of in-place blocks: one after the other, in list order. *)
Definition each {A} (F : A -> DataFrame -> DataFrame) (xs : list A)
    (f : DataFrame) : DataFrame :=
  foldl (fun acc x => F x acc) f xs.

Definition clean_data_frame (pd : Pandas) (f : DataFrame) : DataFrame :=
  each (clean_condition_frame pd) condition_columns
    (clean_amount_frame pd "total_claims"
       (clean_amount_frame pd "total_cost"
          (clean_gender_frame pd
             (clean_age_frame pd
                (clean_member_id_frame pd
                   (frame_drop_duplicates f)))))).

(** The cost per claim of a row, as [np.where] selects it. *)
Definition cost_per_claim_of (r : gmap string cell) : cell :=
  if cell_ltb (Num 0) (cell_at "total_claims" r)
  then cell_div (cell_at "total_cost" r) (cell_at "total_claims" r)
  else Num 0.

Definition add_cost_per_claim_frame (f : DataFrame) : DataFrame :=
  if has_column "total_cost" f && has_column "total_claims" f
  then assign "cost_per_claim" DNumber cost_per_claim_of f
  else f.

Definition add_age_group_frame (f : DataFrame) : DataFrame :=
  if has_column "age" f
  then assign "age_group" DCategory (fun r => cut_age (cell_at "age" r)) f
  else f.

Definition add_condition_count_frame (name : string)
    (available : list string) (f : DataFrame) : DataFrame :=
  match available with
  | _ :: _ =>
      assign name DNumber
        (fun r => sum_cells ((fun c => cell_at c r) <$> available)) f
  | [] => assign name DNumber (fun _ => Num 0) f
  end.

Definition add_top_flag_frame (pd : Pandas) (col flag : string)
    (f : DataFrame) : DataFrame :=
  if has_column col f
  then assign flag DNumber
         (fun r => astype_int
                     (cell_leb (quantile pd 0.8%Q (column col f))
                               (cell_at col r))) f
  else f.

Definition add_risk_flags_frame (f : DataFrame) : DataFrame :=
  if has_column "age" f
  then assign "young_adult" DNumber
         (fun r => astype_int (cell_leb (Num 18) (cell_at "age" r) &&
                               cell_leb (cell_at "age" r) (Num 35)))
         (assign "elderly" DNumber
            (fun r => astype_int (cell_leb (Num 65) (cell_at "age" r))) f)
  else f.

(** The columns among [wanted] that the frame has. *)
Definition available (wanted : list string) (f : DataFrame) : list string :=
  filter (fun col => col ∈ column_names f) wanted.

Definition add_derived_features_frame (pd : Pandas) (f : DataFrame)
    : DataFrame :=
  let f1 := add_age_group_frame (add_cost_per_claim_frame f) in
  let chronic :=
    available ["diabetes"; "hypertension"; "heart_disease"; "copd"] f1 in
  let f2 := add_condition_count_frame "chronic_condition_count" chronic f1 in
  let high_cost :=
    available ["cancer"; "kidney_disease"; "mental_health"] f2 in
  let f3 :=
    add_condition_count_frame "high_cost_condition_count" high_cost f2 in
  let f4 :=
    add_condition_count_frame "total_condition_count"
      (chronic ++ high_cost)%list f3 in
  add_risk_flags_frame
    (add_top_flag_frame pd "total_cost" "high_cost_member"
       (add_top_flag_frame pd "total_claims" "high_utilizer" f4)).

Definition fill_column_frame (dt : dtype) (v : cell) (col : string)
    (f : DataFrame) : DataFrame :=
  if has_column col f
  then assign col dt (fun r => fillna v (cell_at col r)) f
  else f.

Definition handle_missing_values_frame (f : DataFrame) : DataFrame :=
  let f1 :=
    each (fill_column_frame DNumber (Num 0)) (frame_select_dtypes DNumber f) f
  in
  each (fill_column_frame DObject (Str "unknown"))
       (frame_select_dtypes DObject f1) f1.

(** The frame [process_claims] returns for a frame that has the required
    columns. *)
Definition processed_frame (pd : Pandas) (f : DataFrame) : DataFrame :=
  handle_missing_values_frame
    (add_derived_features_frame pd (clean_data_frame pd f)).

(** ** Rows as the data-quality policy sees them *)

(** The cell is a number within bounds. *)
Definition num_between (lo : Q) (hi : option Q) (c : cell) : Prop :=
  exists q, c = Num q /\ (lo <= q)%Q /\
            match hi with Some u => (q <= u)%Q | None => True end.

(** A well-formed input row: age, cost and claims read as numbers, the age
    from 0 to 120, cost and claims not negative. *)
Definition well_formed (pd : Pandas) (r : gmap string cell) : Prop :=
  num_between 0 (Some 120%Q) (to_numeric pd (cell_at "age" r)) /\
  num_between 0 None (to_numeric pd (cell_at "total_cost" r)) /\
  num_between 0 None (to_numeric pd (cell_at "total_claims" r)).

(** The same of an output row, whose cells are numbers already. *)
Definition clean_row (r : gmap string cell) : Prop :=
  num_between 0 (Some 120%Q) (cell_at "age" r) /\
  num_between 0 None (cell_at "total_cost" r) /\
  num_between 0 None (cell_at "total_claims" r).

(** The output row [r'] is the input row [r] cleaned, as far as age, cost and
    claims go. *)
Definition cleaned_from (pd : Pandas) (r r' : gmap string cell) : Prop :=
  cell_at "age" r' = to_numeric pd (cell_at "age" r) /\
  cell_at "total_cost" r' = to_numeric pd (cell_at "total_cost" r) /\
  cell_at "total_claims" r' = to_numeric pd (cell_at "total_claims" r).

(** The store [h'] is the store [h] with at most the frame at [l] changed
    and frames added at new locations; [l'] is [l] or one of the new
    locations. *)
Definition extends (l : nat) (h : gmap nat DataFrame) (l' : nat)
    (h' : gmap nat DataFrame) : Prop :=
  (l' = l \/ l' ∉ dom h) /\
  (forall k, k <> l -> k ∈ dom h -> h' !! k = h !! k) /\
  dom h ⊆ dom h'.

(** The computation, run on a store with the frame [f] at [l], updates that
    frame in place to [F f]. *)
Definition updates (m : M unit) (l : nat) (F : DataFrame -> DataFrame)
    : Prop :=
  forall h f, h !! l = Some f -> m h = (Ok tt, <[l := F f]> h).

(** The computation, run on a store with the frame [f] at [l], returns a
    location that holds [F f], in place or new. *)
Definition produces (m : M nat) (l : nat) (F : DataFrame -> DataFrame)
    : Prop :=
  forall h f, h !! l = Some f ->
    exists l' h', m h = (Ok l', h') /\ h' !! l' = Some (F f) /\
                  extends l h l' h'.

(** The columns the data-quality policy and the cost per claim depend on. *)
Definition key_columns : list string := ["age"; "total_cost"; "total_claims"].

(** Two rows read the same numbers in the key columns. *)
Definition linked (pd : Pandas) (r0 r : gmap string cell) : Prop :=
  forall k, k ∈ key_columns ->
    to_numeric pd (cell_at k r) = to_numeric pd (cell_at k r0).

(** The rows of [f] are images of rows of [f0], label by label, under [P];
    every row of [f0] that satisfies [G] has an image. *)
Definition frame_rel (G : gmap string cell -> Prop)
    (P : gmap string cell -> gmap string cell -> Prop)
    (f0 f : DataFrame) : Prop :=
  (forall i r, (i, r) ∈ df_rows f -> exists r0, (i, r0) ∈ df_rows f0 /\ P r0 r) /\
  (forall i r0, (i, r0) ∈ df_rows f0 -> G r0 ->
     exists r, (i, r) ∈ df_rows f /\ P r0 r).

(** The columns later blocks must leave alone. *)
Definition tracked_columns : list string :=
  ["age"; "total_cost"; "total_claims"; "cost_per_claim"].

(** Two rows have the same cells in the given columns. *)
Definition agree_on (ks : list string) (r r' : gmap string cell) : Prop :=
  forall k, k ∈ ks -> cell_at k r' = cell_at k r.

(** What is known of a row [r] that comes from the row [r0], after the age
    block, after the cost block, after [_clean_data], and from the cost per
    claim on. *)
Definition after_age (pd : Pandas) (r0 r : gmap string cell) : Prop :=
  linked pd r0 r /\ num_between 0 (Some 120%Q) (cell_at "age" r).

Definition after_cost (pd : Pandas) (r0 r : gmap string cell) : Prop :=
  after_age pd r0 r /\ num_between 0 None (cell_at "total_cost" r).

Definition after_clean (pd : Pandas) (r0 r : gmap string cell) : Prop :=
  linked pd r0 r /\ clean_row r.

Definition after_features (pd : Pandas) (r0 r : gmap string cell) : Prop :=
  after_clean pd r0 r /\ cell_at "cost_per_claim" r = cost_per_claim_of r.

(** A block that drops no column. *)
Definition grows (F : DataFrame -> DataFrame) : Prop :=
  forall f c, c ∈ column_names f -> c ∈ column_names (F f).

(** A sample store, for the examples: five members, one with a negative
    age, one with a negative cost, one listed twice. *)
Definition sample_pandas : Pandas :=
  {| parse_number := fun _ => None;
     format_number := fun _ => "0";
     quantile := fun _ _ => NaN |}.

Definition sample_row (id : string) (age cost claims : Q) : gmap string cell :=
  list_to_map [("member_id", Str id); ("age", Num age); ("gender", Str " M ");
               ("total_cost", Num cost); ("total_claims", Num claims)].

Definition sample_frame : DataFrame :=
  {| df_cols := [("member_id", DObject); ("age", DNumber); ("gender", DObject);
                 ("total_cost", DNumber); ("total_claims", DNumber)];
     df_rows := [(0%nat, sample_row "a" 30 100 0);
                 (1%nat, sample_row "b" (-5) 100 2);
                 (2%nat, sample_row "c" 70 300 3);
                 (3%nat, sample_row "a" 30 100 0);
                 (4%nat, sample_row "d" 50 (-1) 3)] |}.

Definition sample_store : gmap nat DataFrame := {[ 7%nat := sample_frame ]}.

(** A frame without the [age] column. *)
Definition sample_frame_no_age : DataFrame :=
  {| df_cols := [("member_id", DObject); ("gender", DObject);
                 ("total_cost", DNumber); ("total_claims", DNumber)];
     df_rows := [] |}.
(** ** Python primitives: basic facts *)

Lemma truthy_true n : Py.truthy n = true <-> n <> 0%Z.
Proof.
  unfold Py.truthy. destruct (Z.eqb_spec n 0); simpl; split; intros; congruence.
Qed.

Lemma contains_true `{Countable K} {V} (d : gmap K V) k :
  Py.contains d k = true <-> is_Some (d !! k).
Proof. unfold Py.contains. apply bool_decide_eq_true. Qed.

Lemma contains_false `{Countable K} {V} (d : gmap K V) k :
  Py.contains d k = false <-> d !! k = None.
Proof.
  unfold Py.contains. rewrite bool_decide_eq_false. symmetry.
  apply eq_None_not_Some.
Qed.

Lemma py_max_Qmax a b : (Py.max a b == Qmax a b)%Q.
Proof.
  unfold Py.max. destruct (Qlt_le_dec a b) as [Hlt | Hle].
  - symmetry. apply Q.max_r. lra.
  - symmetry. apply Q.max_l. lra.
Qed.

Lemma py_max_nonneg b : (0 <= Py.max 0.0 b)%Q.
Proof. unfold Py.max. destruct (Qlt_le_dec 0.0 b); lra. Qed.

Lemma py_max_mono a b c : (b <= c)%Q -> (Py.max a b <= Py.max a c)%Q.
Proof.
  intros Hbc. unfold Py.max.
  destruct (Qlt_le_dec a b), (Qlt_le_dec a c); lra.
Qed.

Lemma py_max_id b : (0 <= b)%Q -> (Py.max 0.0 b == b)%Q.
Proof. intros Hb. unfold Py.max. destruct (Qlt_le_dec 0.0 b); lra. Qed.

#[export] Instance py_max_proper : Proper (Qeq ==> Qeq ==> Qeq) Py.max.
Proof.
  intros a a' Ha b b' Hb. unfold Py.max.
  destruct (Qlt_le_dec a b), (Qlt_le_dec a' b'); lra.
Qed.

(** ** Sums of rationals *)

Lemma sumQ_app l1 l2 : (sumQ (l1 ++ l2) == sumQ l1 + sumQ l2)%Q.
Proof.
  induction l1 as [| x l1 IH]; simpl.
  - lra.
  - rewrite IH. lra.
Qed.

Lemma sumQ_perm l1 l2 : l1 ≡ₚ l2 -> (sumQ l1 == sumQ l2)%Q.
Proof.
  induction 1 as [| x l1 l2 _ IH | x y l | l1 l2 l3 _ IH1 _ IH2]; simpl.
  - reflexivity.
  - rewrite IH. reflexivity.
  - lra.
  - rewrite IH1. exact IH2.
Qed.

Lemma sumQ_nonneg l : Forall (fun x => 0 <= x)%Q l -> (0 <= sumQ l)%Q.
Proof.
  induction 1 as [| x l Hx _ IH]; simpl; lra.
Qed.

Lemma sumQ_pos l :
  Forall (fun x => 0 < x)%Q l -> l <> [] -> (0 < sumQ l)%Q.
Proof.
  intros Hall Hne. destruct Hall as [| x l Hx Hl]; [congruence |].
  simpl. apply Forall_impl with (Q := fun x => (0 <= x)%Q) in Hl.
  - apply sumQ_nonneg in Hl. lra.
  - intros y Hy. lra.
Qed.

Lemma weight_sum_perm self l1 l2 :
  l1 ≡ₚ l2 -> (weight_sum self l1 == weight_sum self l2)%Q.
Proof. intros Hp. apply sumQ_perm. by apply fmap_Permutation. Qed.

Lemma weight_sum_app self l1 l2 :
  (weight_sum self (l1 ++ l2) == weight_sum self l1 + weight_sum self l2)%Q.
Proof. unfold weight_sum. rewrite fmap_app. apply sumQ_app. Qed.

Example score_diabetes_hypertension :
  exists s, calculate_hcc_score HCCMapper_init
              (<["cancer":=0%Z]> (<["hypertension":=1%Z]> {["diabetes":=1%Z]}))
              65 "male" = Some s /\ (s == 4.1)%Q.
Proof. eexists. split; [vm_compute; reflexivity | reflexivity]. Qed.

(** The age-sex table has the 202 entries of the literal, from
    [('male', 0)] to [('female', 100)], and no other. *)
Example age_sex_table_shape :
  length age_sex_coefficients_items = 202%nat /\
  head age_sex_coefficients_items = Some ("male", 0%Z, 0.0%Q) /\
  last age_sex_coefficients_items = Some ("female", 100%Z, 0.0%Q) /\
  age_sex_coefficients HCCMapper_init !! ("male", 100%Z) = Some 0.0%Q /\
  age_sex_coefficients HCCMapper_init !! ("female", 101%Z) = None.
Proof. repeat split; by vm_compute. Qed.

(** ** The loops of [HCCMapper] *)

Section mapper_loops.
Context (self : HCCMapper).

(** The loop of [map_conditions_to_hcc] never hits [KeyError]; it returns
    the start list followed by the codes of the truthy catalog conditions. *)
Lemma extend_codes_spec items acc :
  exists out,
    extend_codes self items acc = Some out /\
    forall c, c ∈ out <->
      c ∈ acc \/
      exists cond present cs,
        (cond, present) ∈ items /\ present <> 0%Z /\
        hcc_mapping self !! cond = Some cs /\ c ∈ cs.
Proof.
  revert acc. induction items as [| [cond present] rest IH]; intros acc.
  - exists acc. split; [done |]. intros c. split; [by left |].
    intros [Hc | (? & ? & ? & Hin & _)]; [done |]. by apply elem_of_nil in Hin.
  - simpl.
    destruct (Py.truthy present) eqn:Ht;
      [destruct (Py.contains (hcc_mapping self) cond) eqn:Hc |]; simpl.
    + apply contains_true in Hc as [cs Hcs]. unfold Py.getitem.
      rewrite Hcs. simpl.
      destruct (IH (acc ++ cs)%list) as (out & Hout & Hmem).
      exists out. split; [done |]. intros c. rewrite Hmem, elem_of_app.
      apply truthy_true in Ht. split.
      * intros [[Hc | Hc] | (cond' & p' & cs' & Hin & Hp & Hm & Hcc)].
        -- by left.
        -- right. exists cond, present, cs. rewrite elem_of_cons. eauto.
        -- right. exists cond', p', cs'. rewrite elem_of_cons. eauto.
      * intros [Hc | (cond' & p' & cs' & Hin & Hp & Hm & Hcc)]; [by do 2 left |].
        apply elem_of_cons in Hin as [Heq | Hin].
        -- injection Heq as -> ->. left. right. congruence.
        -- right. eauto 8.
    + apply contains_false in Hc.
      destruct (IH acc) as (out & Hout & Hmem).
      exists out. split; [done |]. intros c. rewrite Hmem. split.
      * intros [Hin | (cond' & p' & cs' & Hin & Hp & Hm & Hcc)]; [by left |].
        right. exists cond', p', cs'. rewrite elem_of_cons. eauto.
      * intros [Hin | (cond' & p' & cs' & Hin & Hp & Hm & Hcc)]; [by left |].
        apply elem_of_cons in Hin as [Heq | Hin].
        -- injection Heq as -> ->. congruence.
        -- right. eauto 8.
    + destruct (IH acc) as (out & Hout & Hmem).
      exists out. split; [done |]. intros c. rewrite Hmem. split.
      * intros [Hin | (cond' & p' & cs' & Hin & Hp & Hm & Hcc)]; [by left |].
        right. exists cond', p', cs'. rewrite elem_of_cons. eauto.
      * intros [Hin | (cond' & p' & cs' & Hin & Hp & Hm & Hcc)]; [by left |].
        apply elem_of_cons in Hin as [Heq | Hin].
        -- injection Heq as -> ->.
           assert (Py.truthy present = true) by by apply truthy_true.
           congruence.
        -- right. eauto 8.
Qed.

(** [map_conditions_to_hcc] returns, without duplicates, exactly the
    triggered codes. *)
Lemma map_conditions_to_hcc_spec conditions :
  exists codes,
    map_conditions_to_hcc self conditions = Some codes /\
    NoDup codes /\
    forall c, c ∈ codes <-> triggers self conditions c.
Proof.
  unfold map_conditions_to_hcc.
  destruct (extend_codes_spec (map_to_list conditions) [])
    as (out & -> & Hmem).
  simpl. eexists. split; [done |]. split; [apply NoDup_elements |].
  intros c. rewrite elem_of_elements, elem_of_list_to_set, Hmem.
  unfold triggers. split.
  - intros [Hnil | (cond & p & cs & Hin & Hrest)].
    + by apply elem_of_nil in Hnil.
    + apply elem_of_map_to_list in Hin. eauto 8.
  - intros (cond & p & cs & Hin & Hrest). right.
    apply elem_of_map_to_list in Hin. eauto 8.
Qed.

(** The weight loop never hits [KeyError]; a code without a weight adds
    nothing. *)
Lemma add_weights_spec codes acc :
  exists s,
    add_weights self codes acc = Some s /\
    (s == acc + weight_sum self codes)%Q.
Proof.
  revert acc. induction codes as [| c rest IH]; intros acc.
  - exists acc. split; [done |]. unfold weight_sum. simpl. lra.
  - simpl. assert (Hcons : (weight_sum self (c :: rest) ==
                            weight_of self c + weight_sum self rest)%Q)
      by reflexivity.
    destruct (Py.contains (hcc_weights self) c) eqn:Hc.
    + apply contains_true in Hc as [w Hw]. unfold Py.getitem.
      rewrite Hw. simpl.
      destruct (IH (acc + w)%Q) as (s & Hs & Heq).
      exists s. split; [done |]. rewrite Heq, Hcons.
      unfold weight_of at 1. rewrite Hw. simpl. lra.
    + apply contains_false in Hc.
      destruct (IH acc) as (s & Hs & Heq).
      exists s. split; [done |]. rewrite Heq, Hcons.
      unfold weight_of at 1. rewrite Hc. simpl. lra.
Qed.

(** The age-sex lookup never hits [KeyError]. *)
Lemma age_sex_coeff_spec age gender :
  exists a,
    age_sex_coeff self age gender = Some a /\
    (a == adjustment self age gender)%Q.
Proof.
  unfold age_sex_coeff, adjustment.
  destruct (Py.contains _ _) eqn:Hc.
  - apply contains_true in Hc as [a Ha]. unfold Py.getitem. rewrite Ha.
    exists a. split; [done |]. reflexivity.
  - apply contains_false in Hc. rewrite Hc. exists 0.0%Q.
    split; [reflexivity |]. simpl. reflexivity.
Qed.

(** [calculate_hcc_score] always returns, and what: the floor at [0] of the
    weights of the triggered codes, each once, plus the adjustment. *)
Lemma calculate_hcc_score_spec conditions age gender :
  exists codes s,
    map_conditions_to_hcc self conditions = Some codes /\
    calculate_hcc_score self conditions age gender = Some s /\
    (s == Py.max 0.0
            (weight_sum self codes + adjustment self age gender))%Q.
Proof.
  unfold calculate_hcc_score.
  destruct (map_conditions_to_hcc_spec conditions) as (codes & Hcodes & _).
  rewrite Hcodes. simpl.
  destruct (add_weights_spec codes 0.0%Q) as (w & -> & Hw). simpl.
  destruct (age_sex_coeff_spec age gender) as (a & -> & Ha). simpl.
  exists codes. eexists. split; [reflexivity |]. split; [reflexivity |].
  apply py_max_proper; [reflexivity |]. rewrite Hw, Ha. lra.
Qed.

End mapper_loops.

(** ** Weights of sets of codes *)

Section code_sets.
Context (self : HCCMapper).

(** A duplicate-free list is determined, up to order, by its members. *)
Lemma NoDup_same_members (l1 l2 : list string) :
  NoDup l1 -> NoDup l2 -> (forall c, c ∈ l1 <-> c ∈ l2) -> l1 ≡ₚ l2.
Proof. intros H1 H2 Hmem. by apply NoDup_Permutation. Qed.

Lemma weight_sum_elements_list (l : list string) :
  NoDup l ->
  (weight_sum self (elements (list_to_set l : gset string)) ==
   weight_sum self l)%Q.
Proof. intros Hl. apply weight_sum_perm. by apply elements_list_to_set. Qed.

(** Inclusion-exclusion for the weight of two sets of codes. *)
Lemma weight_sum_union (X Y : gset string) :
  (weight_sum self (elements (X ∪ Y)) + weight_sum self (elements (X ∩ Y)) ==
   weight_sum self (elements X) + weight_sum self (elements Y))%Q.
Proof.
  assert (HU : elements (X ∪ Y) ≡ₚ elements X ++ elements (Y ∖ X)).
  { rewrite <- elements_disj_union by set_solver.
    apply elements_proper. intros c. rewrite !elem_of_union, elem_of_difference.
    destruct (decide (c ∈ X)); tauto. }
  assert (HY : elements Y ≡ₚ elements (Y ∖ X) ++ elements (X ∩ Y)).
  { rewrite <- elements_disj_union by set_solver.
    apply elements_proper. intros c.
    rewrite elem_of_union, elem_of_difference, elem_of_intersection.
    destruct (decide (c ∈ X)); tauto. }
  rewrite (weight_sum_perm _ _ _ HU), (weight_sum_perm _ _ _ HY).
  rewrite !weight_sum_app. lra.
Qed.

Lemma weight_sum_nonneg (l : list string) :
  (forall c, c ∈ l -> 0 <= weight_of self c)%Q -> (0 <= weight_sum self l)%Q.
Proof.
  intros Hl. apply sumQ_nonneg. apply Forall_fmap, Forall_forall.
  intros c Hc. by apply Hl.
Qed.

Lemma weight_sum_pos (l : list string) :
  (forall c, c ∈ l -> 0 < weight_of self c)%Q -> l <> [] ->
  (0 < weight_sum self l)%Q.
Proof.
  intros Hl Hne. apply sumQ_pos.
  - apply Forall_fmap, Forall_forall. intros c Hc. by apply Hl.
  - destruct l; [done | discriminate].
Qed.

(** More codes weigh more when no weight is negative. *)
Lemma weight_sum_mono (l1 l2 : list string) :
  (forall c, 0 <= weight_of self c)%Q ->
  NoDup l1 -> (forall c, c ∈ l1 -> c ∈ l2) ->
  (weight_sum self l1 <= weight_sum self l2)%Q.
Proof.
  intros Hw Hnd Hsub.
  assert (Hms : l1 ⊆+ l2) by by apply NoDup_submseteq.
  apply submseteq_Permutation in Hms as [k Hk].
  rewrite (weight_sum_perm _ _ _ Hk), weight_sum_app.
  assert (0 <= weight_sum self k)%Q by (apply weight_sum_nonneg; auto).
  lra.
Qed.

(** Only the codes that have an entry count. *)
Lemma weight_sum_omap (l : list string) :
  (weight_sum self l == sumQ (omap (fun c => hcc_weights self !! c) l))%Q.
Proof.
  induction l as [| c l IH]; [reflexivity |].
  change (weight_sum self (c :: l))
    with (weight_of self c + weight_sum self l)%Q.
  rewrite IH. unfold weight_of. simpl omap.
  destruct (hcc_weights self !! c) as [w |]; simpl;
    [reflexivity | apply Qplus_0_l].
Qed.

End code_sets.

(** ** Condition sets *)

Section condition_sets.
Context (self : HCCMapper).

Lemma triggers_categories conditions c :
  triggers self conditions c <->
  exists cond present,
    conditions !! cond = Some present /\ present <> 0%Z /\
    c ∈ categories self cond.
Proof.
  unfold triggers, categories. split.
  - intros (cond & p & cs & Hc & Hp & Hm & Hin).
    exists cond, p. rewrite Hm. auto.
  - intros (cond & p & Hc & Hp & Hin).
    destruct (hcc_mapping self !! cond) as [cs |] eqn:Hm; simpl in Hin.
    + eauto 8.
    + by apply elem_of_nil in Hin.
Qed.

(** Setting a flag to a truthy value keeps every triggered code. *)
Lemma triggers_insert conditions cond present c :
  present <> 0%Z ->
  triggers self conditions c ->
  triggers self (<[cond:=present]> conditions) c.
Proof.
  intros Hp (cond' & p' & cs & Hc & Hp' & Hm & Hin).
  destruct (decide (cond = cond')) as [-> | Hne].
  - exists cond', present, cs. by rewrite lookup_insert_eq.
  - exists cond', p', cs. by rewrite lookup_insert_ne.
Qed.

(** A name outside the catalog triggers nothing, whatever its flag. *)
Lemma triggers_insert_unknown conditions cond present c :
  hcc_mapping self !! cond = None ->
  triggers self (<[cond:=present]> conditions) c <->
  triggers self conditions c.
Proof.
  intros Hu. split.
  - intros (cond' & p' & cs & Hc & Hp' & Hm & Hin).
    destruct (decide (cond = cond')) as [-> | Hne]; [congruence |].
    rewrite lookup_insert_ne in Hc by done. exists cond', p', cs. auto.
  - intros (cond' & p' & cs & Hc & Hp' & Hm & Hin).
    destruct (decide (cond = cond')) as [-> | Hne]; [congruence |].
    exists cond', p', cs. by rewrite lookup_insert_ne.
Qed.

(** The codes of the two-condition set [{A: fa, B: fb}]. *)
Lemma triggers_pair A B fa fb c :
  fa <> 0%Z -> fb <> 0%Z ->
  triggers self (<[B:=fb]> (<[A:=fa]> ∅)) c <->
  c ∈ categories self A \/ c ∈ categories self B.
Proof.
  intros Ha Hb. rewrite triggers_categories. split.
  - intros (cond & p & Hc & Hp & Hin).
    destruct (decide (B = cond)) as [-> | HneB]; [by right |].
    rewrite lookup_insert_ne in Hc by done.
    destruct (decide (A = cond)) as [-> | HneA]; [by left |].
    rewrite lookup_insert_ne in Hc by done. by rewrite lookup_empty in Hc.
  - intros [Hin | Hin].
    + destruct (decide (B = A)) as [-> | Hne].
      * exists A, fb. by rewrite lookup_insert_eq.
      * exists A, fa. by rewrite lookup_insert_ne, lookup_insert_eq.
    + exists B, fb. by rewrite lookup_insert_eq.
Qed.

End condition_sets.

(** ** Laws of the score under assumptions on the tables *)

Section score_laws.
Context (self : HCCMapper).

Lemma weight_of_nonneg c : weights_nonneg self -> (0 <= weight_of self c)%Q.
Proof.
  intros Hw. unfold weight_of.
  destruct (hcc_weights self !! c) as [w |] eqn:E; simpl; [eauto | lra].
Qed.

Lemma adjustment_nonneg age gender :
  coefficients_nonneg self -> (0 <= adjustment self age gender)%Q.
Proof.
  intros Hc. unfold adjustment.
  destruct (age_sex_coefficients self !! _) as [v |] eqn:E; simpl;
    [eauto | lra].
Qed.

Lemma categories_weight_pos cond c :
  catalog_weights_pos self -> c ∈ categories self cond ->
  (0 < weight_of self c)%Q.
Proof.
  intros Hpos. unfold categories.
  destruct (hcc_mapping self !! cond) as [cs |] eqn:Hm; simpl.
  - intros Hin. destruct (Hpos _ _ _ Hm Hin) as (w & Hw & Hlt).
    unfold weight_of. by rewrite Hw.
  - intros Hin. by apply elem_of_nil in Hin.
Qed.

Lemma categories_NoDup cond : catalog_nodup self -> NoDup (categories self cond).
Proof.
  intros Hnd. unfold categories.
  destruct (hcc_mapping self !! cond) as [cs |] eqn:Hm; simpl.
  - eauto.
  - constructor.
Qed.

(** Monotonicity: a further truthy flag never lowers the score. *)
Lemma score_monotone conditions cond present age gender :
  weights_nonneg self -> present <> 0%Z ->
  exists s s',
    calculate_hcc_score self conditions age gender = Some s /\
    calculate_hcc_score self (<[cond:=present]> conditions) age gender
      = Some s' /\
    (s <= s')%Q.
Proof.
  intros Hw Hp.
  destruct (calculate_hcc_score_spec self conditions age gender)
    as (codes & s & Hcodes & Hs & Heq).
  destruct (calculate_hcc_score_spec self (<[cond:=present]> conditions)
              age gender) as (codes' & s' & Hcodes' & Hs' & Heq').
  exists s, s'. split; [done |]. split; [done |].
  destruct (map_conditions_to_hcc_spec self conditions)
    as (l & Hl & Hnd & Hmem).
  destruct (map_conditions_to_hcc_spec self (<[cond:=present]> conditions))
    as (l' & Hl' & Hnd' & Hmem').
  assert (l = codes) by congruence. assert (l' = codes') by congruence.
  subst l l'. rewrite Heq, Heq'. apply py_max_mono.
  assert (weight_sum self codes <= weight_sum self codes')%Q; [| lra].
  apply weight_sum_mono; [intros c; by apply weight_of_nonneg | done |].
  intros c Hc. apply Hmem'. apply triggers_insert; [done |]. by apply Hmem.
Qed.

(** De-duplication: two conditions weigh together what they weigh apart,
    less the weight of the codes they share. *)
Lemma score_pair A B fa fb age gender :
  weights_nonneg self -> catalog_nodup self -> coefficients_nonneg self ->
  fa <> 0%Z -> fb <> 0%Z ->
  exists s,
    calculate_hcc_score self (<[B:=fb]> (<[A:=fa]> ∅)) age gender = Some s /\
    (s + weight_sum self
           (elements (list_to_set (categories self A) ∩
                      list_to_set (categories self B) : gset string)) ==
     weight_sum self (categories self A) +
     weight_sum self (categories self B) +
     adjustment self age gender)%Q.
Proof.
  intros Hw Hnd Hadj Ha Hb.
  destruct (calculate_hcc_score_spec self (<[B:=fb]> (<[A:=fa]> ∅))
              age gender) as (codes & s & Hcodes & Hs & Heq).
  exists s. split; [done |].
  destruct (map_conditions_to_hcc_spec self (<[B:=fb]> (<[A:=fa]> ∅)))
    as (l & Hl & Hndl & Hmem).
  assert (l = codes) by congruence. subst l.
  assert (Hperm : codes ≡ₚ
            elements (list_to_set (categories self A) ∪
                      list_to_set (categories self B) : gset string)).
  { apply NoDup_same_members; [done | apply NoDup_elements |].
    intros c. rewrite Hmem, triggers_pair by done.
    by rewrite elem_of_elements, elem_of_union, !elem_of_list_to_set. }
  pose proof (weight_sum_union self (list_to_set (categories self A))
                (list_to_set (categories self B))) as HU.
  rewrite <- (weight_sum_perm self _ _ Hperm) in HU.
  rewrite !weight_sum_elements_list in HU by by apply categories_NoDup.
  assert (0 <= weight_sum self codes)%Q
    by (apply weight_sum_nonneg; intros; by apply weight_of_nonneg).
  pose proof (adjustment_nonneg age gender Hadj).
  rewrite Heq, py_max_id by lra. lra.
Qed.

End score_laws.

(** ** The shipped tables *)

Lemma shipped_catalog_weights_pos : catalog_weights_pos HCCMapper_init.
Proof.
  intros cond cs c Hm Hin.
  change (hcc_mapping HCCMapper_init) with
    (list_to_map hcc_mapping_items : gmap string (list string)) in Hm.
  apply elem_of_list_to_map_2 in Hm. unfold hcc_mapping_items in Hm.
  repeat (apply elem_of_cons in Hm as [Hm | Hm];
          [injection Hm as _ ->;
           repeat (apply elem_of_cons in Hin as [-> | Hin];
                   [eexists; split; [vm_compute; reflexivity | reflexivity] |]);
           by apply elem_of_nil in Hin |]).
  by apply elem_of_nil in Hm.
Qed.

Lemma shipped_weights_nonneg : weights_nonneg HCCMapper_init.
Proof.
  intros c w Hw.
  change (hcc_weights HCCMapper_init) with
    (list_to_map hcc_weights_items : gmap string Q) in Hw.
  apply elem_of_list_to_map_2 in Hw. unfold hcc_weights_items in Hw.
  repeat (apply elem_of_cons in Hw as [Hw | Hw];
          [injection Hw as _ ->; lra |]).
  by apply elem_of_nil in Hw.
Qed.

Lemma shipped_catalog_nodup : catalog_nodup HCCMapper_init.
Proof.
  intros cond cs Hm.
  change (hcc_mapping HCCMapper_init) with
    (list_to_map hcc_mapping_items : gmap string (list string)) in Hm.
  apply elem_of_list_to_map_2 in Hm. unfold hcc_mapping_items in Hm.
  repeat (apply elem_of_cons in Hm as [Hm | Hm];
          [injection Hm as _ ->; apply (bool_decide_unpack _); by vm_compute |]).
  by apply elem_of_nil in Hm.
Qed.

Lemma age_sex_rows_elem g k v :
  (k, v) ∈ age_sex_rows g ->
  exists a, k = (g, a) /\ (0 <= a <= 100)%Z /\ v = 0.0%Q.
Proof.
  unfold age_sex_rows. intros Hin.
  apply list_elem_of_fmap in Hin as (n & Heq & Hn).
  injection Heq as -> ->. apply elem_of_seq in Hn.
  exists (Z.of_nat n). split; [done |]. split; [lia | done].
Qed.

(** Keys of the shipped age-sex table: male or female, age 0 to 100. *)
Lemma shipped_coefficients_key g a v :
  age_sex_coefficients HCCMapper_init !! (g, a) = Some v ->
  (g = "male" \/ g = "female") /\ (0 <= a <= 100)%Z /\ v = 0.0%Q.
Proof.
  change (age_sex_coefficients HCCMapper_init) with
    (list_to_map age_sex_coefficients_items : gmap (string * Z) Q).
  intros Hv. apply elem_of_list_to_map_2 in Hv.
  apply elem_of_app in Hv as [Hv | Hv];
    apply age_sex_rows_elem in Hv as (a' & Heq & Ha & ->);
    injection Heq as -> ->; auto.
Qed.

Lemma shipped_coefficients_nonneg : coefficients_nonneg HCCMapper_init.
Proof.
  intros [g a] v Hv. apply shipped_coefficients_key in Hv as (_ & _ & ->).
  discriminate.
Qed.

(** Every shipped coefficient is [0.0]: the adjustment vanishes. *)
Lemma shipped_adjustment_zero age gender :
  (adjustment HCCMapper_init age gender == 0)%Q.
Proof.
  unfold adjustment.
  destruct (age_sex_coefficients HCCMapper_init !! _) as [v |] eqn:E; simpl.
  - apply shipped_coefficients_key in E as (_ & _ & ->). reflexivity.
  - reflexivity.
Qed.

(** ** Further facts used by the statements about [HCCMapper] *)

(** Condition sets that trigger the same codes map to the same list. *)
Lemma map_conditions_to_hcc_ext self (m1 m2 : gmap string Z) :
  (forall c, triggers self m1 c <-> triggers self m2 c) ->
  map_conditions_to_hcc self m1 = map_conditions_to_hcc self m2.
Proof.
  intros Hsame.
  destruct (map_conditions_to_hcc_spec self m1) as (l1 & H1 & _ & Hm1).
  destruct (map_conditions_to_hcc_spec self m2) as (l2 & H2 & _ & Hm2).
  unfold map_conditions_to_hcc in *.
  destruct (extend_codes self (map_to_list m1) []) as [o1 |]; [| done].
  destruct (extend_codes self (map_to_list m2) []) as [o2 |]; [| done].
  simpl in *. injection H1 as <-. injection H2 as <-.
  do 2 f_equal. apply set_eq. intros c.
  specialize (Hm1 c). specialize (Hm2 c). specialize (Hsame c).
  rewrite elem_of_elements in Hm1, Hm2. tauto.
Qed.

Lemma triggers_singleton self A fa c :
  fa <> 0%Z ->
  triggers self {[A := fa]} c <-> c ∈ categories self A.
Proof.
  intros Ha. rewrite triggers_categories. split.
  - intros (cond & p & Hc & _ & Hin).
    apply lookup_singleton_Some in Hc as [-> _]. done.
  - intros Hin. exists A, fa. by rewrite lookup_singleton_eq.
Qed.

(** The weight of the codes two conditions share vanishes exactly when they
    share none, provided catalog weights are positive. *)
Lemma shared_weight_zero self A B :
  catalog_weights_pos self ->
  let shared := elements (list_to_set (categories self A) ∩
                          list_to_set (categories self B) : gset string) in
  (0 <= weight_sum self shared)%Q /\
  ((weight_sum self shared == 0)%Q <->
   forall c, c ∈ categories self A -> c ∉ categories self B).
Proof.
  intros Hpos shared.
  assert (Hmem : forall c, c ∈ shared <->
                   c ∈ categories self A /\ c ∈ categories self B).
  { intros c. unfold shared.
    by rewrite elem_of_elements, elem_of_intersection, !elem_of_list_to_set. }
  assert (Hw : forall c, c ∈ shared -> (0 < weight_of self c)%Q).
  { intros c Hc. apply Hmem in Hc as [Hc _].
    by apply categories_weight_pos with A. }
  split.
  - apply weight_sum_nonneg. intros c Hc. apply Hw in Hc. lra.
  - split.
    + intros Hz c HA HB.
      assert (Hne : shared <> []).
      { intros Hnil. assert (Hc : c ∈ shared) by by apply Hmem.
        rewrite Hnil in Hc. by apply elem_of_nil in Hc. }
      pose proof (weight_sum_pos self shared Hw Hne). lra.
    + intros Hdisj. destruct shared as [| c rest] eqn:E; [reflexivity |].
      assert (Hc : c ∈ c :: rest) by (apply elem_of_cons; by left).
      apply Hmem in Hc as [HA HB]. by destruct (Hdisj c HA).
Qed.

Lemma lower_empty gender :
  gender_key gender =
  if decide (gender = "") then "unknown" else Py.lower gender.
Proof. unfold gender_key. by destruct gender. Qed.

Lemma age_group_min age : age_group age = Z.min age 100.
Proof. unfold age_group. by rewrite Z.div_1_r. Qed.

(** ** Statements about [HCCMapper] *)





(** C3. The score is never negative, and it is the floor at 0 of the sum of
    the weights of the distinct triggered codes plus the demographic
    adjustment: whatever duplicate-free list enumerates the triggered codes,
    its weight plus the adjustment, floored, is the score. *)
Theorem score_nonneg_floor (self : HCCMapper) (conditions : gmap string Z)
    (age : Z) (gender : string) :
  exists s,
    calculate_hcc_score self conditions age gender = Some s /\
    (0 <= s)%Q /\
    forall codes,
      NoDup codes -> (forall c, c ∈ codes <-> triggers self conditions c) ->
      (s == Qmax 0 (weight_sum self codes + adjustment self age gender))%Q.
Proof.
  destruct (calculate_hcc_score_spec self conditions age gender)
    as (l & s & Hl & Hs & Heq).
  destruct (map_conditions_to_hcc_spec self conditions)
    as (l' & Hl' & Hnd & Hmem).
  assert (l' = l) by congruence. subst l'.
  exists s. split; [done |]. split.
  - rewrite Heq. apply py_max_nonneg.
  - intros codes Hnd' Hmem'.
    assert (Hperm : l ≡ₚ codes).
    { apply NoDup_same_members; [done | done |].
      intros c. by rewrite Hmem, Hmem'. }
    rewrite Heq, py_max_Qmax, (weight_sum_perm self _ _ Hperm).
    apply Q.max_compat; [reflexivity | reflexivity].
Qed.

Lemma score_nonneg_floor_witness :
  exists s,
    calculate_hcc_score HCCMapper_init {["diabetes":=1%Z]} 65 "male"
      = Some s /\
    (0 <= s)%Q /\
    (s == Qmax 0 (weight_sum HCCMapper_init ["HCC_19"; "HCC_18"] +
                  adjustment HCCMapper_init 65 "male"))%Q.
Proof.
  destruct (score_nonneg_floor HCCMapper_init {["diabetes":=1%Z]} 65 "male")
    as (s & Hs & Hnn & Hall).
  exists s. split; [exact Hs |]. split; [exact Hnn |]. apply Hall.
  - apply (bool_decide_unpack _). by vm_compute.
  - intros c. rewrite triggers_singleton by lia.
    change (categories HCCMapper_init "diabetes") with ["HCC_18"; "HCC_19"].
    rewrite !elem_of_cons. tauto.
Defined.

(** C4. [map_conditions_to_hcc] never fails and returns, without duplicates,
    exactly the codes of the conditions that have a truthy flag and are in
    the catalog; adding a name that is not in the catalog, with any flag,
    changes nothing and is no error. *)
Theorem map_conditions_to_hcc_union (self : HCCMapper)
    (conditions : gmap string Z) :
  exists codes,
    map_conditions_to_hcc self conditions = Some codes /\
    NoDup codes /\
    (forall c, c ∈ codes <->
       exists cond present cs,
         conditions !! cond = Some present /\ present <> 0%Z /\
         hcc_mapping self !! cond = Some cs /\ c ∈ cs) /\
    (forall unknown present,
       hcc_mapping self !! unknown = None ->
       map_conditions_to_hcc self (<[unknown:=present]> conditions)
         = Some codes).
Proof.
  destruct (map_conditions_to_hcc_spec self conditions)
    as (codes & Hcodes & Hnd & Hmem).
  exists codes. split; [done |]. split; [done |]. split; [exact Hmem |].
  intros unknown present Hu. rewrite <- Hcodes.
  apply map_conditions_to_hcc_ext. intros c.
  by apply triggers_insert_unknown.
Qed.

Lemma map_conditions_to_hcc_union_witness :
  map_conditions_to_hcc HCCMapper_init
    (<["migraine":=1%Z]> {["asthma":=1%Z]}) = Some ["HCC_111"].
Proof.
  destruct (map_conditions_to_hcc_union HCCMapper_init {["asthma":=1%Z]})
    as (codes & Hcodes & _ & _ & Hunknown).
  rewrite (Hunknown "migraine" 1%Z); [| by vm_compute].
  rewrite <- Hcodes. by vm_compute.
Defined.

(** The shipped age-sex table has no entry for a negative age bucket nor for
    a gender key other than male and female. *)
Lemma shipped_coefficients_absent g a :
  (a < 0)%Z \/ (g <> "male" /\ g <> "female") ->
  age_sex_coefficients HCCMapper_init !! (g, a) = None.
Proof.
  intros Hout.
  destruct (age_sex_coefficients HCCMapper_init !! (g, a)) as [v |] eqn:E;
    [| done].
  apply shipped_coefficients_key in E as (Hg & Ha & _).
  destruct Hout as [Hneg | [Hm Hf]]; [lia | tauto].
Qed.

Lemma gender_key_lower gender :
  Py.lower gender <> "male" -> Py.lower gender <> "female" ->
  gender_key gender <> "male" /\ gender_key gender <> "female".
Proof.
  intros Hm Hf. unfold gender_key. destruct gender; simpl; [done |].
  split; assumption.
Qed.




(** A mapper whose catalog names a code, [HCC_999], that has no weight. *)
Example score_with_missing_weight :
  let self := {| hcc_mapping := {["rare" := ["HCC_999"; "HCC_1"]]};
                 hcc_weights := {["HCC_1" := 1.0%Q]};
                 age_sex_coefficients := ∅ |} in
  exists s, calculate_hcc_score self {["rare" := 1%Z]} 30 "female" = Some s /\
            (s == 1.0)%Q.
Proof. eexists. split; [vm_compute; reflexivity | reflexivity]. Qed.

(** C9. A code without an entry in the weight table never makes
    [calculate_hcc_score] fail and adds exactly 0: the score is computed from
    the weights of the triggered codes that have an entry, and from them
    alone.  In the shipped tables every code the catalog names has an
    entry. *)
Theorem missing_weight_counts_zero (self : HCCMapper)
    (conditions : gmap string Z) (age : Z) (gender : string) :
  (exists codes s,
     map_conditions_to_hcc self conditions = Some codes /\
     calculate_hcc_score self conditions age gender = Some s /\
     (s == Py.max 0.0
             (sumQ (omap (fun c => hcc_weights self !! c) codes) +
              adjustment self age gender))%Q /\
     forall c, hcc_weights self !! c = None ->
       (weight_sum self (c :: codes) == weight_sum self codes)%Q) /\
  (forall cond cs c,
     hcc_mapping HCCMapper_init !! cond = Some cs -> c ∈ cs ->
     is_Some (hcc_weights HCCMapper_init !! c)).
Proof.
  split.
  - destruct (calculate_hcc_score_spec self conditions age gender)
      as (codes & s & Hcodes & Hs & Heq).
    exists codes, s. split; [done |]. split; [done |]. split.
    + rewrite Heq. apply py_max_proper; [reflexivity |].
      by rewrite weight_sum_omap.
    + intros c Hc.
      change (weight_sum self (c :: codes))
        with (weight_of self c + weight_sum self codes)%Q.
      unfold weight_of. rewrite Hc. simpl. lra.
  - intros cond cs c Hm Hin.
    destruct (shipped_catalog_weights_pos cond cs c Hm Hin) as (w & Hw & _).
    by exists w.
Qed.

Lemma missing_weight_counts_zero_witness :
  is_Some (hcc_weights HCCMapper_init !! "HCC_88").
Proof.
  destruct (missing_weight_counts_zero HCCMapper_init ∅ 0 "") as [_ Hclosed].
  apply (Hclosed "heart_failure" ["HCC_85"; "HCC_88"]).
  - by vm_compute.
  - rewrite !elem_of_cons. tauto.
Defined.

(** ** Series computed row by row *)

Lemma fmap_rowwise {A B} (g' : A -> B) (g : gmap string cell -> A) f :
  g' <$> rowwise g f = rowwise (fun r => g' (g r)) f.
Proof. unfold rowwise. by rewrite <- list_fmap_compose. Qed.

Lemma zip_with_rowwise {A B C} (op : A -> B -> C)
    (g1 : gmap string cell -> A) (g2 : gmap string cell -> B) f :
  zip_with op (rowwise g1 f) (rowwise g2 f) =
  rowwise (fun r => op (g1 r) (g2 r)) f.
Proof.
  unfold rowwise. induction (df_rows f) as [| ir rs IH]; [done |].
  csimpl. by rewrite IH.
Qed.

Lemma np_where_rowwise (p : gmap string cell -> bool)
    (g : gmap string cell -> cell) (b : cell) f :
  np_where (rowwise p f) (rowwise g f) b =
  rowwise (fun r => if p r then g r else b) f.
Proof. unfold np_where. by rewrite zip_with_rowwise. Qed.

Lemma length_rowwise {A} (g : gmap string cell -> A) f :
  length (rowwise g f) = length (df_rows f).
Proof. unfold rowwise. by rewrite length_fmap. Qed.

Lemma column_rowwise c f : column c f = rowwise (cell_at c) f.
Proof. reflexivity. Qed.

Lemma replicate_rowwise (v : cell) f :
  replicate (length (df_rows f)) v = rowwise (fun _ => v) f.
Proof.
  unfold rowwise. induction (df_rows f) as [| ir rs IH]; [done |].
  csimpl. by rewrite IH.
Qed.

Lemma frame_set_rowwise c dt (g : gmap string cell -> cell) f :
  frame_set c dt (rowwise g f) f = assign c dt g f.
Proof.
  unfold frame_set, assign, rowwise. f_equal.
  induction (df_rows f) as [| ir rs IH]; [done |]. csimpl. by rewrite IH.
Qed.

Lemma frame_mask_rowwise (p : gmap string cell -> bool) f :
  frame_mask (rowwise p f) f = keep p f.
Proof.
  unfold frame_mask, keep, rowwise. f_equal.
  induction (df_rows f) as [| ir rs IH]; [done |]. csimpl.
  rewrite !filter_cons. csimpl.
  destruct (p ir.2) eqn:Hp; csimpl.
  - by rewrite IH.
  - exact IH.
Qed.

Lemma frame_sum_axis1_rowwise cols f :
  frame_sum_axis1 cols f =
  rowwise (fun r => sum_cells ((fun c => cell_at c r) <$> cols)) f.
Proof. reflexivity. Qed.

(** ** Column labels *)

Lemma set_dtype_names c dt cols :
  forall k, k ∈ (set_dtype c dt cols).*1 <-> k = c \/ k ∈ cols.*1.
Proof.
  intros k. unfold set_dtype. case_bool_decide as Hc.
  - rewrite <- list_fmap_compose.
    assert (Heq : (fst ∘ (fun cd : string * dtype =>
                     if bool_decide (cd.1 = c) then (c, dt) else cd)) <$> cols
                  = cols.*1).
    { apply list_fmap_ext. intros i [c' d] _. simpl.
      case_bool_decide; simpl; congruence. }
    rewrite Heq. split; [auto |]. intros [-> | H]; done.
  - rewrite fmap_app, elem_of_app. simpl. rewrite list_elem_of_singleton.
    tauto.
Qed.

Lemma column_names_assign c dt g f k :
  k ∈ column_names (assign c dt g f) <-> k = c \/ k ∈ column_names f.
Proof. unfold column_names, assign. simpl. apply set_dtype_names. Qed.

Lemma column_names_keep p f : column_names (keep p f) = column_names f.
Proof. reflexivity. Qed.

Lemma has_column_true c f : has_column c f = true <-> c ∈ column_names f.
Proof. unfold has_column. apply bool_decide_eq_true. Qed.

(** ** Running the primitives *)

Lemma bind_run {A B} (m : M A) (k : A -> M B) h a h1 :
  m h = (Ok a, h1) -> (m ≫= k) h = k a h1.
Proof. intros Hm. unfold mbind, M_bind, bind. by rewrite Hm. Qed.

Lemma bind_raise {A B} (m : M A) (k : A -> M B) h e h1 :
  m h = (Raise e, h1) -> (m ≫= k) h = (Raise e, h1).
Proof. intros Hm. unfold mbind, M_bind, bind. by rewrite Hm. Qed.

Section primitives.
Context (h : gmap nat DataFrame) (l : nat) (f : DataFrame).
Hypothesis Hl : h !! l = Some f.

Lemma run_read : read l h = (Ok f, h).
Proof. unfold read. by rewrite Hl. Qed.

Lemma run_columns : df_columns l h = (Ok (column_names f), h).
Proof. unfold df_columns. by rewrite (bind_run _ _ _ _ _ run_read). Qed.

Lemma run_getitem c :
  c ∈ column_names f -> df_getitem l c h = (Ok (rowwise (cell_at c) f), h).
Proof.
  intros Hc. unfold df_getitem. rewrite (bind_run _ _ _ _ _ run_read).
  by rewrite bool_decide_eq_true_2.
Qed.

Lemma run_getitem_missing c :
  c ∉ column_names f -> df_getitem l c h = (Raise (KeyError c), h).
Proof.
  intros Hc. unfold df_getitem. rewrite (bind_run _ _ _ _ _ run_read).
  by rewrite bool_decide_eq_false_2.
Qed.

Lemma run_setitem c dt (g : gmap string cell -> cell) :
  df_setitem l c dt (rowwise g f) h = (Ok tt, <[l := assign c dt g f]> h).
Proof.
  unfold df_setitem. rewrite (bind_run _ _ _ _ _ run_read).
  rewrite bool_decide_eq_true_2 by apply length_rowwise.
  unfold write. by rewrite frame_set_rowwise.
Qed.

Lemma run_setitem_scalar c dt v :
  df_setitem_scalar l c dt v h =
  (Ok tt, <[l := assign c dt (fun _ => v) f]> h).
Proof.
  unfold df_setitem_scalar. rewrite (bind_run _ _ _ _ _ run_read).
  unfold write. by rewrite replicate_rowwise, frame_set_rowwise.
Qed.

Lemma run_mask (p : gmap string cell -> bool) :
  df_mask l (rowwise p f) h =
  (Ok (fresh (dom h)), <[fresh (dom h) := keep p f]> h).
Proof.
  unfold df_mask. rewrite (bind_run _ _ _ _ _ run_read).
  rewrite bool_decide_eq_true_2 by apply length_rowwise.
  unfold alloc. by rewrite frame_mask_rowwise.
Qed.

Lemma run_drop_duplicates :
  df_drop_duplicates l h =
  (Ok (fresh (dom h)), <[fresh (dom h) := frame_drop_duplicates f]> h).
Proof.
  unfold df_drop_duplicates. by rewrite (bind_run _ _ _ _ _ run_read).
Qed.

Lemma run_copy :
  df_copy l h = (Ok (fresh (dom h)), <[fresh (dom h) := f]> h).
Proof. unfold df_copy. by rewrite (bind_run _ _ _ _ _ run_read). Qed.

Lemma run_sum_axis1 cols :
  (forall c, c ∈ cols -> c ∈ column_names f) ->
  df_sum_axis1 l cols h =
  (Ok (rowwise (fun r => sum_cells ((fun c => cell_at c r) <$> cols)) f), h).
Proof.
  intros Hcols. unfold df_sum_axis1. rewrite (bind_run _ _ _ _ _ run_read).
  assert (Hnil : filter (fun c => c ∉ column_names f) cols = []).
  { induction cols as [| c cols IH]; [done |].
    rewrite filter_cons, decide_False.
    - apply IH. intros c' Hc'. apply Hcols. by right.
    - intros Hn. apply Hn, Hcols. by left. }
  by rewrite Hnil.
Qed.

Lemma run_select_dtypes dt :
  df_select_dtypes l dt h = (Ok (frame_select_dtypes dt f), h).
Proof.
  unfold df_select_dtypes. by rewrite (bind_run _ _ _ _ _ run_read).
Qed.

End primitives.

(** ** Stores that extend one another *)

Lemma extends_refl l h : extends l h l h.
Proof. split; [by left |]. split; [done | done]. Qed.

Lemma extends_update l h f f' :
  h !! l = Some f -> extends l h l (<[l := f']> h).
Proof.
  intros Hl. split; [by left |]. split.
  - intros k Hk _. by rewrite lookup_insert_ne.
  - rewrite dom_insert. set_solver.
Qed.

Lemma extends_alloc l h f' :
  extends l h (fresh (dom h)) (<[fresh (dom h) := f']> h).
Proof.
  split; [right; apply is_fresh |]. split.
  - intros k _ Hk. rewrite lookup_insert_ne; [done |].
    intros <-. by apply is_fresh in Hk.
  - rewrite dom_insert. set_solver.
Qed.

Lemma extends_trans l h l1 h1 l2 h2 :
  extends l h l1 h1 -> extends l1 h1 l2 h2 -> extends l h l2 h2.
Proof.
  intros (Hl1 & Hk1 & Hd1) (Hl2 & Hk2 & Hd2). split; [| split].
  - destruct Hl2 as [-> | Hnew]; [done |]. right. set_solver.
  - intros k Hk Hin. rewrite Hk2.
    + by apply Hk1.
    + destruct Hl1 as [-> | Hnew]; [done |]. intros ->. done.
    + set_solver.
  - set_solver.
Qed.

(** ** Composing blocks *)

Lemma updates_ret l : updates (mret tt) l (fun f => f).
Proof. intros h f Hl. unfold mret, M_ret, ret. by rewrite insert_id. Qed.

Lemma updates_bind (m k : M unit) l F G :
  updates m l F -> updates k l G ->
  updates (m ≫= fun _ => k) l (fun f => G (F f)).
Proof.
  intros Hm Hk h f Hl. rewrite (bind_run _ _ _ _ _ (Hm h f Hl)).
  rewrite (Hk _ (F f)) by apply lookup_insert_eq.
  by rewrite insert_insert_eq.
Qed.

Lemma updates_for_each {A} (body : A -> M unit) l
    (F : A -> DataFrame -> DataFrame) xs :
  (forall x, updates (body x) l (F x)) ->
  updates (for_each xs body) l (each F xs).
Proof.
  intros Hbody. induction xs as [| x xs IH]; intros h f Hl.
  - by apply updates_ret.
  - simpl. apply (updates_bind _ _ _ _ _ (Hbody x) IH h f Hl).
Qed.

Lemma produces_ret l : produces (mret l) l (fun f => f).
Proof.
  intros h f Hl. exists l, h. split; [done |]. split; [done |].
  apply extends_refl.
Qed.

Lemma produces_bind (m : M nat) (k : nat -> M nat) l F G :
  produces m l F -> (forall l', produces (k l') l' G) ->
  produces (m ≫= k) l (fun f => G (F f)).
Proof.
  intros Hm Hk h f Hl.
  destruct (Hm h f Hl) as (l1 & h1 & Hrun1 & Hl1 & Hext1).
  destruct (Hk l1 h1 (F f) Hl1) as (l2 & h2 & Hrun2 & Hl2 & Hext2).
  exists l2, h2. rewrite (bind_run _ _ _ _ _ Hrun1).
  split; [done |]. split; [done |]. by apply extends_trans with l1 h1.
Qed.

Lemma produces_after (m : M unit) (k : M nat) l F G :
  updates m l F -> produces k l G ->
  produces (m ≫= fun _ => k) l (fun f => G (F f)).
Proof.
  intros Hm Hk h f Hl. rewrite (bind_run _ _ _ _ _ (Hm h f Hl)).
  destruct (Hk (<[l := F f]> h) (F f)) as (l2 & h2 & Hrun2 & Hl2 & Hext2);
    [apply lookup_insert_eq |].
  exists l2, h2. split; [done |]. split; [done |].
  apply extends_trans with l (<[l := F f]> h); [| done].
  by apply extends_update with f.
Qed.

(** ** The blocks of [_clean_data] *)

Section blocks.
Context (pd : Pandas) (l : nat).

Lemma drop_duplicates_produces :
  produces (df_drop_duplicates l) l frame_drop_duplicates.
Proof.
  intros h f Hl. rewrite (run_drop_duplicates h l f Hl).
  eexists _, _. split; [done |]. split; [apply lookup_insert_eq |].
  apply extends_alloc.
Qed.

Lemma clean_member_id_updates :
  updates (clean_member_id pd l) l (clean_member_id_frame pd).
Proof.
  intros h f Hl. unfold clean_member_id, clean_member_id_frame, has_column.
  rewrite (bind_run _ _ _ _ _ (run_columns h l f Hl)).
  case_bool_decide as Hc.
  - rewrite (bind_run _ _ _ _ _ (run_getitem h l f Hl _ Hc)).
    rewrite !fmap_rowwise. apply (run_setitem h l f Hl).
  - by apply updates_ret.
Qed.

Lemma clean_age_produces :
  produces (clean_age pd l) l (clean_age_frame pd).
Proof.
  intros h f Hl. unfold clean_age, clean_age_frame, has_column.
  rewrite (bind_run _ _ _ _ _ (run_columns h l f Hl)).
  case_bool_decide as Hc; [| by apply produces_ret].
  rewrite (bind_run _ _ _ _ _ (run_getitem h l f Hl _ Hc)).
  rewrite !fmap_rowwise.
  rewrite (bind_run _ _ _ _ _ (run_setitem h l f Hl _ _ _)).
  set (f1 := assign "age" DNumber _ f). set (h1 := <[l := f1]> h).
  assert (Hl1 : h1 !! l = Some f1) by apply lookup_insert_eq.
  assert (Hc1 : "age" ∈ column_names f1)
    by (apply column_names_assign; by left).
  rewrite (bind_run _ _ _ _ _ (run_getitem h1 l f1 Hl1 _ Hc1)).
  rewrite (bind_run _ _ _ _ _ (run_getitem h1 l f1 Hl1 _ Hc1)).
  rewrite !fmap_rowwise, zip_with_rowwise. rewrite (run_mask h1 l f1 Hl1).
  eexists _, _. split; [done |]. split; [apply lookup_insert_eq |].
  apply extends_trans with l h1; [by apply extends_update with f |].
  apply extends_alloc.
Qed.

Lemma clean_gender_updates :
  updates (clean_gender pd l) l (clean_gender_frame pd).
Proof.
  intros h f Hl. unfold clean_gender, clean_gender_frame, has_column.
  rewrite (bind_run _ _ _ _ _ (run_columns h l f Hl)).
  case_bool_decide as Hc; [| by apply updates_ret].
  rewrite (bind_run _ _ _ _ _ (run_getitem h l f Hl _ Hc)).
  rewrite !fmap_rowwise.
  rewrite (bind_run _ _ _ _ _ (run_setitem h l f Hl _ _ _)).
  set (f1 := assign "gender" DObject _ f). set (h1 := <[l := f1]> h).
  assert (Hl1 : h1 !! l = Some f1) by apply lookup_insert_eq.
  assert (Hc1 : "gender" ∈ column_names f1)
    by (apply column_names_assign; by left).
  rewrite (bind_run _ _ _ _ _ (run_getitem h1 l f1 Hl1 _ Hc1)).
  rewrite !fmap_rowwise. rewrite (run_setitem h1 l f1 Hl1).
  unfold h1. by rewrite insert_insert_eq.
Qed.

Lemma clean_amount_produces col :
  produces (clean_amount pd col l) l (clean_amount_frame pd col).
Proof.
  intros h f Hl. unfold clean_amount, clean_amount_frame, has_column.
  rewrite (bind_run _ _ _ _ _ (run_columns h l f Hl)).
  case_bool_decide as Hc; [| by apply produces_ret].
  rewrite (bind_run _ _ _ _ _ (run_getitem h l f Hl _ Hc)).
  rewrite !fmap_rowwise.
  rewrite (bind_run _ _ _ _ _ (run_setitem h l f Hl _ _ _)).
  set (f1 := assign col DNumber _ f). set (h1 := <[l := f1]> h).
  assert (Hl1 : h1 !! l = Some f1) by apply lookup_insert_eq.
  assert (Hc1 : col ∈ column_names f1)
    by (apply column_names_assign; by left).
  rewrite (bind_run _ _ _ _ _ (run_getitem h1 l f1 Hl1 _ Hc1)).
  rewrite !fmap_rowwise. rewrite (run_mask h1 l f1 Hl1).
  eexists _, _. split; [done |]. split; [apply lookup_insert_eq |].
  apply extends_trans with l h1; [by apply extends_update with f |].
  apply extends_alloc.
Qed.

Lemma clean_condition_updates col :
  updates (clean_condition pd l col) l (clean_condition_frame pd col).
Proof.
  intros h f Hl. unfold clean_condition, clean_condition_frame, has_column.
  rewrite (bind_run _ _ _ _ _ (run_columns h l f Hl)).
  case_bool_decide as Hc; [| by apply updates_ret].
  rewrite (bind_run _ _ _ _ _ (run_getitem h l f Hl _ Hc)).
  rewrite !fmap_rowwise.
  rewrite (bind_run _ _ _ _ _ (run_setitem h l f Hl _ _ _)).
  set (f1 := assign col DNumber _ f). set (h1 := <[l := f1]> h).
  assert (Hl1 : h1 !! l = Some f1) by apply lookup_insert_eq.
  assert (Hc1 : col ∈ column_names f1)
    by (apply column_names_assign; by left).
  rewrite (bind_run _ _ _ _ _ (run_getitem h1 l f1 Hl1 _ Hc1)).
  rewrite !fmap_rowwise. rewrite (run_setitem h1 l f1 Hl1).
  unfold h1. by rewrite insert_insert_eq.
Qed.

End blocks.

(** [_clean_data] returns a frame that holds [clean_data_frame]. *)
Lemma clean_data_produces pd l :
  produces (_clean_data pd l) l (clean_data_frame pd).
Proof.
  intros h f Hl. unfold _clean_data, clean_data_frame.
  pose (f1 := frame_drop_duplicates f).
  pose (f2 := clean_member_id_frame pd f1).
  pose (f3 := clean_age_frame pd f2).
  pose (f4 := clean_gender_frame pd f3).
  pose (f5 := clean_amount_frame pd "total_cost" f4).
  pose (f6 := clean_amount_frame pd "total_claims" f5).
  destruct (drop_duplicates_produces l h f Hl) as (l1 & h1 & R1 & Hl1 & E1).
  rewrite (bind_run _ _ _ _ _ R1).
  rewrite (bind_run _ _ _ _ _ (clean_member_id_updates pd l1 h1 f1 Hl1)).
  pose proof (extends_update l1 h1 f1 f2 Hl1) as E2.
  destruct (clean_age_produces pd l1 (<[l1 := f2]> h1) f2
              (lookup_insert_eq h1 l1 f2)) as (l3 & h3 & R3 & Hl3 & E3).
  rewrite (bind_run _ _ _ _ _ R3).
  rewrite (bind_run _ _ _ _ _ (clean_gender_updates pd l3 h3 f3 Hl3)).
  pose proof (extends_update l3 h3 f3 f4 Hl3) as E4.
  destruct (clean_amount_produces pd l3 "total_cost" (<[l3 := f4]> h3) f4
              (lookup_insert_eq h3 l3 f4)) as (l5 & h5 & R5 & Hl5 & E5).
  rewrite (bind_run _ _ _ _ _ R5).
  destruct (clean_amount_produces pd l5 "total_claims" h5 f5 Hl5)
    as (l6 & h6 & R6 & Hl6 & E6).
  rewrite (bind_run _ _ _ _ _ R6).
  rewrite (bind_run _ _ _ _ _
             (updates_for_each _ l6 _ condition_columns
                (clean_condition_updates pd l6) h6 f6 Hl6)).
  eexists _, _. split; [done |]. split; [apply lookup_insert_eq |].
  repeat (eapply extends_trans; [eassumption |]).
  by apply extends_update with f6.
Qed.

(** ** The blocks of [_add_derived_features] *)

Section feature_blocks.
Context (pd : Pandas) (l : nat).

Lemma add_cost_per_claim_updates :
  updates (add_cost_per_claim l) l add_cost_per_claim_frame.
Proof.
  intros h f Hl.
  unfold add_cost_per_claim, add_cost_per_claim_frame, has_column.
  rewrite (bind_run _ _ _ _ _ (run_columns h l f Hl)).
  case_bool_decide as Hcost; simpl; [| by apply updates_ret].
  case_bool_decide as Hclaims; simpl; [| by apply updates_ret].
  rewrite (bind_run _ _ _ _ _ (run_getitem h l f Hl _ Hclaims)).
  rewrite (bind_run _ _ _ _ _ (run_getitem h l f Hl _ Hcost)).
  rewrite (bind_run _ _ _ _ _ (run_getitem h l f Hl _ Hclaims)).
  rewrite !fmap_rowwise, zip_with_rowwise, np_where_rowwise.
  exact (run_setitem h l f Hl "cost_per_claim" DNumber cost_per_claim_of).
Qed.

Lemma add_age_group_updates :
  updates (add_age_group l) l add_age_group_frame.
Proof.
  intros h f Hl. unfold add_age_group, add_age_group_frame, has_column.
  rewrite (bind_run _ _ _ _ _ (run_columns h l f Hl)).
  case_bool_decide as Hc; [| by apply updates_ret].
  rewrite (bind_run _ _ _ _ _ (run_getitem h l f Hl _ Hc)).
  rewrite !fmap_rowwise. apply (run_setitem h l f Hl).
Qed.

Lemma add_condition_count_run h f name avail :
  h !! l = Some f ->
  (forall c, c ∈ avail -> c ∈ column_names f) ->
  add_condition_count l name avail h =
  (Ok tt, <[l := add_condition_count_frame name avail f]> h).
Proof.
  intros Hl Havail. unfold add_condition_count, add_condition_count_frame.
  destruct avail as [| c cs].
  - apply (run_setitem_scalar h l f Hl).
  - rewrite (bind_run _ _ _ _ _ (run_sum_axis1 h l f Hl _ Havail)).
    apply (run_setitem h l f Hl).
Qed.

Lemma add_top_flag_updates col flag :
  updates (add_top_flag pd l col flag) l (add_top_flag_frame pd col flag).
Proof.
  intros h f Hl. unfold add_top_flag, add_top_flag_frame, has_column.
  rewrite (bind_run _ _ _ _ _ (run_columns h l f Hl)).
  case_bool_decide as Hc; [| by apply updates_ret].
  rewrite (bind_run _ _ _ _ _ (run_getitem h l f Hl _ Hc)). simpl.
  rewrite (bind_run _ _ _ _ _ (run_getitem h l f Hl _ Hc)).
  rewrite !fmap_rowwise. apply (run_setitem h l f Hl).
Qed.

Lemma add_risk_flags_updates :
  updates (add_risk_flags l) l add_risk_flags_frame.
Proof.
  intros h f Hl. unfold add_risk_flags, add_risk_flags_frame, has_column.
  rewrite (bind_run _ _ _ _ _ (run_columns h l f Hl)).
  case_bool_decide as Hc; [| by apply updates_ret].
  rewrite (bind_run _ _ _ _ _ (run_getitem h l f Hl _ Hc)).
  rewrite !fmap_rowwise.
  rewrite (bind_run _ _ _ _ _ (run_setitem h l f Hl _ _ _)).
  set (f1 := assign "elderly" DNumber _ f). set (h1 := <[l := f1]> h).
  assert (Hl1 : h1 !! l = Some f1) by apply lookup_insert_eq.
  assert (Hc1 : "age" ∈ column_names f1)
    by (apply column_names_assign; by right).
  rewrite (bind_run _ _ _ _ _ (run_getitem h1 l f1 Hl1 _ Hc1)).
  rewrite (bind_run _ _ _ _ _ (run_getitem h1 l f1 Hl1 _ Hc1)).
  rewrite !fmap_rowwise, zip_with_rowwise, !fmap_rowwise.
  rewrite (run_setitem h1 l f1 Hl1).
  unfold h1. by rewrite insert_insert_eq.
Qed.

Lemma available_in wanted f c : c ∈ available wanted f -> c ∈ column_names f.
Proof. unfold available. rewrite list_elem_of_filter. tauto. Qed.

Lemma add_condition_count_names name avail f c :
  c ∈ column_names f ->
  c ∈ column_names (add_condition_count_frame name avail f).
Proof.
  intros Hc. unfold add_condition_count_frame.
  destruct avail; apply column_names_assign; by right.
Qed.

(** [_add_derived_features] updates the frame in place and returns it. *)
Lemma add_derived_features_produces :
  produces (_add_derived_features pd l) l (add_derived_features_frame pd).
Proof.
  intros h f Hl. unfold _add_derived_features, add_derived_features_frame.
  rewrite (bind_run _ _ _ _ _ (add_cost_per_claim_updates h f Hl)).
  set (g1 := add_cost_per_claim_frame f).
  rewrite (bind_run _ _ _ _ _
             (add_age_group_updates _ g1 (lookup_insert_eq h l g1))).
  rewrite insert_insert_eq. set (g2 := add_age_group_frame g1).
  rewrite (bind_run _ _ _ _ _
             (run_columns _ l g2 (lookup_insert_eq h l g2))).
  cbv zeta.
  fold (available ["diabetes"; "hypertension"; "heart_disease"; "copd"] g2).
  set (chronic :=
         available ["diabetes"; "hypertension"; "heart_disease"; "copd"] g2).
  rewrite (bind_run _ _ _ _ _
             (add_condition_count_run _ g2 "chronic_condition_count" chronic
                (lookup_insert_eq h l g2) (available_in _ g2))).
  rewrite insert_insert_eq.
  set (g3 := add_condition_count_frame "chronic_condition_count" chronic g2).
  rewrite (bind_run _ _ _ _ _
             (run_columns _ l g3 (lookup_insert_eq h l g3))).
  fold (available ["cancer"; "kidney_disease"; "mental_health"] g3).
  set (high_cost :=
         available ["cancer"; "kidney_disease"; "mental_health"] g3).
  rewrite (bind_run _ _ _ _ _
             (add_condition_count_run _ g3 "high_cost_condition_count"
                high_cost (lookup_insert_eq h l g3) (available_in _ g3))).
  rewrite insert_insert_eq.
  set (g4 :=
         add_condition_count_frame "high_cost_condition_count" high_cost g3).
  assert (Hall : forall c, c ∈ (chronic ++ high_cost)%list ->
                           c ∈ column_names g4).
  { intros c Hc. apply elem_of_app in Hc as [Hc | Hc].
    - do 2 apply add_condition_count_names. by apply available_in in Hc.
    - apply add_condition_count_names. by apply available_in in Hc. }
  rewrite (bind_run _ _ _ _ _
             (add_condition_count_run _ g4 "total_condition_count" _
                (lookup_insert_eq h l g4) Hall)).
  rewrite insert_insert_eq.
  set (g5 := add_condition_count_frame "total_condition_count" _ g4).
  rewrite (bind_run _ _ _ _ _
             (add_top_flag_updates "total_claims" "high_utilizer"
                _ g5 (lookup_insert_eq h l g5))).
  rewrite insert_insert_eq.
  set (g6 := add_top_flag_frame pd "total_claims" "high_utilizer" g5).
  rewrite (bind_run _ _ _ _ _
             (add_top_flag_updates "total_cost" "high_cost_member"
                _ g6 (lookup_insert_eq h l g6))).
  rewrite insert_insert_eq.
  set (g7 := add_top_flag_frame pd "total_cost" "high_cost_member" g6).
  rewrite (bind_run _ _ _ _ _
             (add_risk_flags_updates _ g7 (lookup_insert_eq h l g7))).
  rewrite insert_insert_eq.
  eexists _, _. split; [done |]. split; [apply lookup_insert_eq |].
  by apply extends_update with f.
Qed.

(** ** [_handle_missing_values] and [_validate_data_quality] *)

Lemma fill_column_updates dt v col :
  updates (fill_column l dt v col) l (fill_column_frame dt v col).
Proof.
  intros h f Hl. unfold fill_column, fill_column_frame, has_column.
  rewrite (bind_run _ _ _ _ _ (run_columns h l f Hl)).
  case_bool_decide as Hc; [| by apply updates_ret].
  rewrite (bind_run _ _ _ _ _ (run_getitem h l f Hl _ Hc)).
  rewrite !fmap_rowwise. apply (run_setitem h l f Hl).
Qed.

Lemma handle_missing_values_produces :
  produces (_handle_missing_values l) l handle_missing_values_frame.
Proof.
  intros h f Hl. unfold _handle_missing_values, handle_missing_values_frame.
  rewrite (bind_run _ _ _ _ _ (run_select_dtypes h l f Hl DNumber)).
  rewrite (bind_run _ _ _ _ _
             (updates_for_each _ l _ _
                (fill_column_updates DNumber (Num 0)) h f Hl)).
  set (f1 := each (fill_column_frame DNumber (Num 0)) _ f).
  rewrite (bind_run _ _ _ _ _
             (run_select_dtypes _ l f1 (lookup_insert_eq h l f1) DObject)).
  rewrite (bind_run _ _ _ _ _
             (updates_for_each _ l _ _
                (fill_column_updates DObject (Str "unknown"))
                _ f1 (lookup_insert_eq h l f1))).
  rewrite insert_insert_eq.
  eexists _, _. split; [done |]. split; [apply lookup_insert_eq |].
  by apply extends_update with f.
Qed.

Lemma inspect_run h f col : h !! l = Some f -> inspect l col h = (Ok tt, h).
Proof.
  intros Hl. unfold inspect.
  rewrite (bind_run _ _ _ _ _ (run_columns h l f Hl)).
  case_bool_decide as Hc; [| done].
  by rewrite (bind_run _ _ _ _ _ (run_getitem h l f Hl _ Hc)).
Qed.

(** [_validate_data_quality] never raises and leaves the store as it is. *)
Lemma validate_data_quality_run h f :
  h !! l = Some f -> _validate_data_quality l h = (Ok tt, h).
Proof.
  intros Hl. unfold _validate_data_quality.
  repeat rewrite (bind_run _ _ _ _ _ (inspect_run h f _ Hl)).
  by apply inspect_run with f.
Qed.

End feature_blocks.

(** ** [process_claims] on the store *)

Section process.
Context (pd : Pandas) (self : ClaimsProcessor).
Context (h : gmap nat DataFrame) (l : nat).

(** The required columns the frame lacks. *)
Lemma missing_nil f :
  filter (fun col => col ∉ column_names f) (required_columns self) = [] <->
  forall c, c ∈ required_columns self -> c ∈ column_names f.
Proof.
  split.
  - intros Hnil c Hc. destruct (decide (c ∈ column_names f)) as [| Hn]; [done |].
    assert (Hin : c ∈ filter (fun col => col ∉ column_names f)
                         (required_columns self))
      by by apply list_elem_of_filter.
    rewrite Hnil in Hin. by apply elem_of_nil in Hin.
  - intros Hall.
    destruct (filter (fun col => col ∉ column_names f)
                (required_columns self)) as [| c cs] eqn:E; [done |].
    assert (Hin : c ∈ c :: cs) by (apply elem_of_cons; by left).
    rewrite <- E in Hin. apply list_elem_of_filter in Hin as [Hn Hc].
    by destruct (Hn (Hall c Hc)).
Qed.

(** With every required column there, [process_claims] returns a new frame,
    the processed one, and leaves every frame of the store as it was. *)
Lemma process_claims_ok f :
  h !! l = Some f ->
  (forall c, c ∈ required_columns self -> c ∈ column_names f) ->
  exists l' h',
    process_claims pd self l h = (Ok l', h') /\
    h' !! l' = Some (processed_frame pd f) /\
    l' ∉ dom h /\
    forall k, k ∈ dom h -> h' !! k = h !! k.
Proof.
  intros Hl Hreq. unfold process_claims.
  rewrite (bind_run _ _ _ _ _ (run_copy h l f Hl)).
  set (l0 := fresh (dom h)). set (h0 := <[l0 := f]> h).
  assert (Hl0 : h0 !! l0 = Some f) by apply lookup_insert_eq.
  assert (Hfresh : l0 ∉ dom h) by apply is_fresh.
  rewrite (bind_run _ _ _ _ _ (run_columns h0 l0 f Hl0)). cbv zeta.
  apply missing_nil in Hreq. rewrite Hreq.
  destruct (clean_data_produces pd l0 h0 f Hl0)
    as (l1 & h1 & R1 & Hl1 & E1).
  rewrite (bind_run _ _ _ _ _ R1).
  destruct (add_derived_features_produces pd l1 h1 _ Hl1)
    as (l2 & h2 & R2 & Hl2 & E2).
  rewrite (bind_run _ _ _ _ _ R2).
  destruct (handle_missing_values_produces l2 h2 _ Hl2)
    as (l3 & h3 & R3 & Hl3 & E3).
  rewrite (bind_run _ _ _ _ _ R3).
  rewrite (bind_run _ _ _ _ _ (validate_data_quality_run l3 h3 _ Hl3)).
  exists l3, h3. split; [done |]. split; [exact Hl3 |].
  assert (E : extends l0 h0 l3 h3)
    by (eapply extends_trans; [| exact E3];
        eapply extends_trans; [exact E1 | exact E2]).
  destruct E as (Hnew & Hkeep & Hdom).
  assert (Hdom0 : dom h ⊆ dom h0) by (unfold h0; rewrite dom_insert; set_solver).
  split.
  - destruct Hnew as [-> | Hnew]; [done | set_solver].
  - intros k Hk. rewrite Hkeep.
    + unfold h0. rewrite lookup_insert_ne; [done |]. by intros <-.
    + by intros ->.
    + set_solver.
Qed.

(** With a required column missing, [process_claims] raises [ValueError]
    right after the copy. *)
Lemma process_claims_missing f c cs :
  h !! l = Some f ->
  filter (fun col => col ∉ column_names f) (required_columns self) = c :: cs ->
  process_claims pd self l h =
  (Raise (ValueError ("Missing required columns: " ++ repr_list (c :: cs))),
   <[fresh (dom h) := f]> h).
Proof.
  intros Hl Hmiss. unfold process_claims.
  rewrite (bind_run _ _ _ _ _ (run_copy h l f Hl)).
  rewrite (bind_run _ _ _ _ _
             (run_columns _ _ f (lookup_insert_eq h (fresh (dom h)) f))).
  cbv zeta. by rewrite Hmiss.
Qed.

(** A reference to no frame: nothing happens. *)
Lemma process_claims_dangling :
  h !! l = None -> process_claims pd self l h = (Raise Dangling, h).
Proof.
  intros Hl. unfold process_claims.
  apply bind_raise. unfold df_copy. apply bind_raise.
  unfold read. by rewrite Hl.
Qed.

End process.

(** ** Rows through [assign], [keep] and [drop_duplicates] *)

Lemma assign_rows_elem c dt g f i r' :
  (i, r') ∈ df_rows (assign c dt g f) <->
  exists r, (i, r) ∈ df_rows f /\ r' = <[c := g r]> r.
Proof.
  unfold assign. simpl. rewrite list_elem_of_fmap. split.
  - intros ([i0 r] & Heq & Hin). injection Heq as -> ->. eauto.
  - intros (r & Hin & ->). by exists (i, r).
Qed.

Lemma keep_rows_elem p f i r :
  (i, r) ∈ df_rows (keep p f) <-> (i, r) ∈ df_rows f /\ p r = true.
Proof. unfold keep. simpl. rewrite list_elem_of_filter. simpl. tauto. Qed.

Lemma cell_at_insert c v r k :
  cell_at k (<[c := v]> r) = if decide (c = k) then v else cell_at k r.
Proof.
  unfold cell_at. destruct (decide (c = k)) as [-> | Hne].
  - by rewrite lookup_insert_eq.
  - by rewrite lookup_insert_ne.
Qed.

Lemma cell_at_insert_ne c v r k : c <> k -> cell_at k (<[c := v]> r) = cell_at k r.
Proof. intros Hne. rewrite cell_at_insert. by rewrite decide_False. Qed.

Lemma cell_at_insert_eq c v r : cell_at c (<[c := v]> r) = v.
Proof. rewrite cell_at_insert. by rewrite decide_True. Qed.

Section frame_rel.
Context (G : gmap string cell -> Prop).

Lemma frame_rel_refl f : frame_rel G (fun r0 r => r = r0) f f.
Proof. split; intros i r Hin; eauto. Qed.

Lemma frame_rel_weaken (P P' : gmap string cell -> gmap string cell -> Prop)
    f0 f :
  frame_rel G P f0 f -> (forall r0 r, P r0 r -> P' r0 r) ->
  frame_rel G P' f0 f.
Proof.
  intros [Hs Hc] Himp. split.
  - intros i r Hin. destruct (Hs i r Hin) as (r0 & Hin0 & HP). eauto.
  - intros i r0 Hin HG. destruct (Hc i r0 Hin HG) as (r & Hin' & HP). eauto.
Qed.

Lemma frame_rel_assign (P P' : gmap string cell -> gmap string cell -> Prop)
    c dt g f0 f :
  frame_rel G P f0 f ->
  (forall r0 r, P r0 r -> P' r0 (<[c := g r]> r)) ->
  frame_rel G P' f0 (assign c dt g f).
Proof.
  intros [Hs Hc] Himp. split.
  - intros i r' Hin. apply assign_rows_elem in Hin as (r & Hin & ->).
    destruct (Hs i r Hin) as (r0 & Hin0 & HP). eauto.
  - intros i r0 Hin HG. destruct (Hc i r0 Hin HG) as (r & Hin' & HP).
    exists (<[c := g r]> r). split; [| auto].
    apply assign_rows_elem. eauto.
Qed.

Lemma frame_rel_keep (P P' : gmap string cell -> gmap string cell -> Prop)
    p f0 f :
  frame_rel G P f0 f ->
  (forall r0 r, P r0 r -> p r = true -> P' r0 r) ->
  (forall r0 r, G r0 -> P r0 r -> p r = true) ->
  frame_rel G P' f0 (keep p f).
Proof.
  intros [Hs Hc] Himp Hsel. split.
  - intros i r Hin. apply keep_rows_elem in Hin as [Hin Hp].
    destruct (Hs i r Hin) as (r0 & Hin0 & HP). eauto.
  - intros i r0 Hin HG. destruct (Hc i r0 Hin HG) as (r & Hin' & HP).
    exists r. split; [| eauto]. apply keep_rows_elem. eauto.
Qed.

(** A loop of blocks that each keep the relation keeps it. *)
Lemma frame_rel_each {A} (P : gmap string cell -> gmap string cell -> Prop)
    (F : A -> DataFrame -> DataFrame) xs f0 :
  (forall x f, x ∈ xs -> frame_rel G P f0 f -> frame_rel G P f0 (F x f)) ->
  forall f, frame_rel G P f0 f -> frame_rel G P f0 (each F xs f).
Proof.
  unfold each. induction xs as [| x xs IH]; intros HF f Hf; [done |].
  simpl. apply IH.
  - intros y f' Hy. apply HF. by right.
  - apply HF; [by left | done].
Qed.

End frame_rel.

(** ** Cells: conversion, comparison, equality *)

Lemma to_numeric_idemp pd c : to_numeric pd (to_numeric pd c) = to_numeric pd c.
Proof.
  destruct c as [q | | s]; simpl; try done.
  by destruct (parse_number pd s).
Qed.

Lemma to_numeric_num pd q : to_numeric pd (Num q) = Num q.
Proof. reflexivity. Qed.

Lemma fillna_num v q : fillna v (Num q) = Num q.
Proof. reflexivity. Qed.

Lemma cell_leb_lower c :
  cell_leb (Num 0) c = true <-> num_between 0 None c.
Proof.
  unfold num_between. destruct c as [q | | s]; simpl.
  - rewrite Qle_bool_iff. split.
    + intros Hq. exists q. auto.
    + intros (q' & Heq & Hq & _). by injection Heq as ->.
  - split; [done |]. by intros (q & Heq & _).
  - split; [done |]. by intros (q & Heq & _).
Qed.

Lemma age_ok_between r :
  age_ok r = true <-> num_between 0 (Some 120%Q) (cell_at "age" r).
Proof.
  unfold age_ok, num_between. destruct (cell_at "age" r) as [q | | s]; simpl.
  - rewrite andb_true_iff, !Qle_bool_iff. split.
    + intros [H0 H120]. exists q. auto.
    + intros (q' & Heq & H0 & H120). injection Heq as ->. auto.
  - split; [done |]. by intros (q & Heq & _).
  - split; [done |]. by intros (q & Heq & _).
Qed.

Lemma cell_eqb_refl c : cell_eqb c c = true.
Proof.
  destruct c as [q | | s]; simpl; [| done |].
  - apply Qeq_bool_iff. reflexivity.
  - apply String.eqb_refl.
Qed.

Lemma row_eqb_refl cols r : row_eqb cols r r = true.
Proof.
  unfold row_eqb. apply forallb_forall. intros c _. apply cell_eqb_refl.
Qed.

Lemma row_eqb_cell cols r1 r2 c :
  row_eqb cols r1 r2 = true -> c ∈ cols ->
  cell_eqb (cell_at c r1) (cell_at c r2) = true.
Proof.
  unfold row_eqb. rewrite forallb_forall. intros Hall Hc.
  apply Hall. by apply list_elem_of_In.
Qed.

Lemma cell_eqb_to_numeric pd a b :
  cell_eqb a b = true -> cell_eqb (to_numeric pd a) (to_numeric pd b) = true.
Proof.
  destruct a as [x | | s], b as [y | | t]; simpl; try done.
  intros Heq. apply String.eqb_eq in Heq as ->. apply cell_eqb_refl.
Qed.

Lemma num_between_eqb lo hi a b :
  cell_eqb a b = true -> num_between lo hi a -> num_between lo hi b.
Proof.
  intros Heq (q & -> & Hlo & Hhi). destruct b as [y | | t]; simpl in Heq;
    try done.
  apply Qeq_bool_iff in Heq. exists y. split; [done |].
  split; [by rewrite <- Heq |]. destruct hi as [u |]; [| done].
  by rewrite <- Heq.
Qed.

(** Rows that [drop_duplicates] holds equal are well-formed together. *)
Lemma well_formed_eqb pd cols r1 r2 :
  row_eqb cols r1 r2 = true ->
  (forall k, k ∈ key_columns -> k ∈ cols) ->
  well_formed pd r1 -> well_formed pd r2.
Proof.
  intros Heq Hcols (Hage & Hcost & Hclaims).
  assert (Hk : forall k, k ∈ key_columns ->
            cell_eqb (to_numeric pd (cell_at k r1))
                     (to_numeric pd (cell_at k r2)) = true).
  { intros k Hin. apply cell_eqb_to_numeric.
    apply row_eqb_cell with cols; auto. }
  unfold key_columns in Hk.
  split; [| split].
  - apply num_between_eqb with (to_numeric pd (cell_at "age" r1)); [| done].
    apply Hk. set_solver.
  - apply num_between_eqb with (to_numeric pd (cell_at "total_cost" r1));
      [| done].
    apply Hk. set_solver.
  - apply num_between_eqb with (to_numeric pd (cell_at "total_claims" r1));
      [| done].
    apply Hk. set_solver.
Qed.

(** ** [drop_duplicates] keeps one row of each group of equal rows *)

Lemma keep_first_subset cols seen rs ir :
  ir ∈ keep_first cols seen rs -> ir ∈ rs.
Proof.
  revert seen. induction rs as [| x rs IH]; intros seen; simpl; [done |].
  destruct (existsb (row_eqb cols x.2) seen).
  - intros Hin. right. by apply IH with seen.
  - intros Hin. apply elem_of_cons in Hin as [-> | Hin]; [by left |].
    right. by apply IH with (x.2 :: seen).
Qed.

Lemma keep_first_represents cols seen rs ir :
  ir ∈ rs ->
  (exists s, s ∈ seen /\ row_eqb cols ir.2 s = true) \/
  (exists ir1, ir1 ∈ keep_first cols seen rs /\
               row_eqb cols ir.2 ir1.2 = true).
Proof.
  revert seen. induction rs as [| x rs IH]; intros seen Hin; simpl.
  - by apply elem_of_nil in Hin.
  - destruct (existsb (row_eqb cols x.2) seen) eqn:Hex.
    + apply elem_of_cons in Hin as [-> | Hin].
      * left. apply existsb_exists in Hex as (s & Hs & Heq).
        exists s. split; [by apply list_elem_of_In | done].
      * by apply IH.
    + apply elem_of_cons in Hin as [-> | Hin].
      * right. exists x. split; [by left | apply row_eqb_refl].
      * destruct (IH (x.2 :: seen) Hin) as [(s & Hs & Heq) | (ir1 & H1 & Heq)].
        -- apply elem_of_cons in Hs as [-> | Hs].
           ++ right. exists x. split; [by left | done].
           ++ left. eauto.
        -- right. exists ir1. split; [by right | done].
Qed.

Lemma drop_duplicates_subset f ir :
  ir ∈ df_rows (frame_drop_duplicates f) -> ir ∈ df_rows f.
Proof. apply keep_first_subset. Qed.

Lemma drop_duplicates_represents f ir :
  ir ∈ df_rows f ->
  exists ir1, ir1 ∈ df_rows (frame_drop_duplicates f) /\
              row_eqb (column_names f) ir.2 ir1.2 = true.
Proof.
  intros Hin.
  destruct (keep_first_represents (column_names f) [] _ _ Hin)
    as [(s & Hs & _) | Hrep]; [by apply elem_of_nil in Hs | exact Hrep].
Qed.

(** ** Blocks drop no column *)

Lemma grows_assign c dt g : grows (assign c dt g).
Proof. intros f k Hk. apply column_names_assign. by right. Qed.

Lemma grows_keep p : grows (keep p).
Proof. intros f k Hk. exact Hk. Qed.

Lemma grows_compose F1 F2 : grows F1 -> grows F2 -> grows (fun f => F2 (F1 f)).
Proof. intros H1 H2 f k Hk. by apply H2, H1. Qed.

Lemma grows_if (b : DataFrame -> bool) F :
  grows F -> grows (fun f => if b f then F f else f).
Proof. intros HF f k Hk. destruct (b f); [by apply HF | done]. Qed.

Lemma grows_each {A} (F : A -> DataFrame -> DataFrame) xs :
  (forall x, grows (F x)) -> grows (each F xs).
Proof.
  intros HF. unfold each. induction xs as [| x xs IH]; intros f k Hk; [done |].
  simpl. apply IH. by apply HF.
Qed.

Lemma grows_drop_duplicates : grows frame_drop_duplicates.
Proof. intros f k Hk. exact Hk. Qed.

Lemma grows_clean_member_id pd : grows (clean_member_id_frame pd).
Proof. apply (grows_if (has_column "member_id")), grows_assign. Qed.

Lemma grows_clean_age pd : grows (clean_age_frame pd).
Proof.
  apply (grows_if (has_column "age")).
  apply (grows_compose (assign _ _ _) (keep _));
    [apply grows_assign | apply grows_keep].
Qed.

Lemma grows_clean_gender pd : grows (clean_gender_frame pd).
Proof.
  apply (grows_if (has_column "gender")).
  apply (grows_compose (assign _ _ _) (assign _ _ _)); apply grows_assign.
Qed.

Lemma grows_clean_amount pd col : grows (clean_amount_frame pd col).
Proof.
  apply (grows_if (has_column col)).
  apply (grows_compose (assign _ _ _) (keep _));
    [apply grows_assign | apply grows_keep].
Qed.

Lemma grows_clean_condition pd col : grows (clean_condition_frame pd col).
Proof.
  apply (grows_if (has_column col)).
  apply (grows_compose (assign _ _ _) (assign _ _ _)); apply grows_assign.
Qed.

Lemma grows_clean_data pd : grows (clean_data_frame pd).
Proof.
  intros f k Hk. unfold clean_data_frame.
  apply grows_each; [intros col; apply grows_clean_condition |].
  do 2 apply grows_clean_amount. apply grows_clean_gender, grows_clean_age,
    grows_clean_member_id, grows_drop_duplicates, Hk.
Qed.

(** ** What each block of [_clean_data] does to the key columns *)

Lemma linked_refl pd r : linked pd r r.
Proof. intros k _. reflexivity. Qed.

Lemma linked_agree pd r0 r r' :
  linked pd r0 r -> agree_on key_columns r r' -> linked pd r0 r'.
Proof. intros Hl Ha k Hk. rewrite (Ha k Hk). by apply Hl. Qed.

Lemma agree_on_insert ks c v r : c ∉ ks -> agree_on ks r (<[c := v]> r).
Proof.
  intros Hc k Hk. apply cell_at_insert_ne. intros ->. by apply Hc.
Qed.

Lemma agree_on_sub ks ks' r r' :
  (forall k, k ∈ ks' -> k ∈ ks) -> agree_on ks r r' -> agree_on ks' r r'.
Proof. intros Hsub Ha k Hk. apply Ha, Hsub, Hk. Qed.

Lemma tracked_key k : k ∈ key_columns -> k ∈ tracked_columns.
Proof. unfold key_columns, tracked_columns. set_solver. Qed.

(** Converting a key column keeps the rows linked. *)
Lemma linked_convert pd r0 r col :
  linked pd r0 r ->
  linked pd r0 (<[col := to_numeric pd (cell_at col r)]> r).
Proof.
  intros Hl k Hk. rewrite cell_at_insert.
  destruct (decide (col = k)) as [-> | Hne]; [| by apply Hl].
  rewrite to_numeric_idemp. by apply Hl.
Qed.

Lemma clean_row_agree r r' :
  clean_row r -> agree_on key_columns r r' -> clean_row r'.
Proof.
  intros (Ha & Hc & Hn) Hag. unfold clean_row.
  rewrite !Hag by (unfold key_columns; set_solver). done.
Qed.

Lemma cost_per_claim_agree r r' :
  agree_on key_columns r r' -> cost_per_claim_of r' = cost_per_claim_of r.
Proof.
  intros Hag. unfold cost_per_claim_of.
  by rewrite !Hag by (unfold key_columns; set_solver).
Qed.

Lemma after_clean_agree pd r0 r r' :
  after_clean pd r0 r -> agree_on key_columns r r' -> after_clean pd r0 r'.
Proof.
  intros [Hl Hc] Hag. split; [by apply linked_agree with r |].
  by apply clean_row_agree with r.
Qed.

Lemma after_features_agree pd r0 r r' :
  after_features pd r0 r -> agree_on tracked_columns r r' ->
  after_features pd r0 r'.
Proof.
  intros [Hc Hcpc] Hag.
  assert (Hkey : agree_on key_columns r r')
    by (apply agree_on_sub with tracked_columns; [apply tracked_key | done]).
  split; [by apply after_clean_agree with r |].
  rewrite (cost_per_claim_agree r r' Hkey), <- Hcpc.
  apply Hag. unfold tracked_columns. set_solver.
Qed.

Section clean_blocks.
Context (pd : Pandas) (f0 : DataFrame).
Notation G := (well_formed pd).

(** A block that assigns to a column outside the given ones keeps what
    depends on those columns only. *)
Lemma frame_rel_assign_other (P : gmap string cell -> gmap string cell -> Prop)
    ks c dt g f :
  c ∉ ks ->
  (forall r0 r r', P r0 r -> agree_on ks r r' -> P r0 r') ->
  frame_rel G P f0 f -> frame_rel G P f0 (assign c dt g f).
Proof.
  intros Hc Hag Hrel. apply frame_rel_assign with P; [done |].
  intros r0 r HP. apply Hag with r; [done |]. by apply agree_on_insert.
Qed.

Lemma clean_member_id_rel f :
  frame_rel G (linked pd) f0 f ->
  frame_rel G (linked pd) f0 (clean_member_id_frame pd f).
Proof.
  intros Hrel. unfold clean_member_id_frame.
  destruct (has_column "member_id" f); [| done].
  apply frame_rel_assign_other with key_columns; [| apply linked_agree | done].
  unfold key_columns. set_solver.
Qed.

Lemma clean_age_rel f :
  "age" ∈ column_names f ->
  frame_rel G (linked pd) f0 f ->
  frame_rel G (after_age pd) f0 (clean_age_frame pd f).
Proof.
  intros Hc Hrel. unfold clean_age_frame.
  rewrite (proj2 (has_column_true _ _) Hc).
  apply frame_rel_keep with
    (fun r0 r => linked pd r0 r /\
                 cell_at "age" r = to_numeric pd (cell_at "age" r0)).
  - apply frame_rel_assign with (linked pd); [done |].
    intros r0 r Hl. split; [by apply linked_convert |].
    rewrite cell_at_insert_eq. apply Hl. unfold key_columns. set_solver.
  - intros r0 r [Hl _] Hok. split; [done |]. by apply age_ok_between.
  - intros r0 r (Hage & _) [_ Heq]. apply age_ok_between. by rewrite Heq.
Qed.

Lemma clean_gender_rel f :
  frame_rel G (after_age pd) f0 f ->
  frame_rel G (after_age pd) f0 (clean_gender_frame pd f).
Proof.
  intros Hrel. unfold clean_gender_frame.
  assert (Hag : forall r0 r r', after_age pd r0 r ->
                  agree_on key_columns r r' -> after_age pd r0 r').
  { intros r0 r r' [Hl Ha] Hagree. split; [by apply linked_agree with r |].
    rewrite Hagree; [done |]. unfold key_columns. set_solver. }
  destruct (has_column "gender" f); [| done].
  do 2 (apply frame_rel_assign_other with key_columns;
        [unfold key_columns; set_solver | exact Hag |]).
  done.
Qed.

Lemma clean_cost_rel f :
  "total_cost" ∈ column_names f ->
  frame_rel G (after_age pd) f0 f ->
  frame_rel G (after_cost pd) f0 (clean_amount_frame pd "total_cost" f).
Proof.
  intros Hc Hrel. unfold clean_amount_frame.
  rewrite (proj2 (has_column_true _ _) Hc).
  apply frame_rel_keep with
    (fun r0 r => after_age pd r0 r /\
                 cell_at "total_cost" r =
                 to_numeric pd (cell_at "total_cost" r0)).
  - apply frame_rel_assign with (after_age pd); [done |].
    intros r0 r [Hl Ha]. split; [split |].
    + by apply linked_convert.
    + by rewrite cell_at_insert_ne.
    + rewrite cell_at_insert_eq. apply Hl. unfold key_columns. set_solver.
  - intros r0 r [Ha _] Hok. split; [done |]. by apply cell_leb_lower.
  - intros r0 r (_ & Hcost & _) [_ Heq]. apply cell_leb_lower. by rewrite Heq.
Qed.

Lemma clean_claims_rel f :
  "total_claims" ∈ column_names f ->
  frame_rel G (after_cost pd) f0 f ->
  frame_rel G (after_clean pd) f0 (clean_amount_frame pd "total_claims" f).
Proof.
  intros Hc Hrel. unfold clean_amount_frame.
  rewrite (proj2 (has_column_true _ _) Hc).
  apply frame_rel_keep with
    (fun r0 r => after_cost pd r0 r /\
                 cell_at "total_claims" r =
                 to_numeric pd (cell_at "total_claims" r0)).
  - apply frame_rel_assign with (after_cost pd); [done |].
    intros r0 r [[Hl Ha] Hcost]. split; [split; [split |] |].
    + by apply linked_convert.
    + by rewrite cell_at_insert_ne.
    + by rewrite cell_at_insert_ne.
    + rewrite cell_at_insert_eq. apply Hl. unfold key_columns. set_solver.
  - intros r0 r [[[Hl Ha] Hcost] _] Hok. split; [done |].
    split; [done |]. split; [done |]. by apply cell_leb_lower.
  - intros r0 r (_ & _ & Hclaims) [_ Heq]. apply cell_leb_lower.
    by rewrite Heq.
Qed.

Lemma clean_condition_rel col f :
  col ∈ condition_columns ->
  frame_rel G (after_clean pd) f0 f ->
  frame_rel G (after_clean pd) f0 (clean_condition_frame pd col f).
Proof.
  intros Hcol Hrel. unfold clean_condition_frame.
  assert (Hout : col ∉ key_columns).
  { unfold condition_columns, key_columns in *. set_solver. }
  destruct (has_column col f); [| done].
  do 2 (apply frame_rel_assign_other with key_columns;
        [exact Hout | apply after_clean_agree |]).
  done.
Qed.

End clean_blocks.

(** The rows of the cleaned frame are the well-formed rows of the frame
    without duplicates, each with its numbers read. *)
Lemma clean_data_rel pd f :
  (forall k, k ∈ key_columns -> k ∈ column_names f) ->
  frame_rel (well_formed pd) (after_clean pd)
    (frame_drop_duplicates f) (clean_data_frame pd f).
Proof.
  intros Hkeys. unfold clean_data_frame.
  set (f0 := frame_drop_duplicates f).
  assert (H0 : frame_rel (well_formed pd) (linked pd) f0 f0).
  { apply frame_rel_weaken with (fun r0 r => r = r0);
      [apply frame_rel_refl |]. intros r0 r ->. apply linked_refl. }
  apply clean_member_id_rel in H0.
  apply clean_age_rel in H0;
    [| apply grows_clean_member_id, grows_drop_duplicates, Hkeys;
       unfold key_columns; set_solver].
  apply clean_gender_rel in H0.
  apply clean_cost_rel in H0;
    [| apply grows_clean_gender, grows_clean_age, grows_clean_member_id,
         grows_drop_duplicates, Hkeys; unfold key_columns; set_solver].
  apply clean_claims_rel in H0;
    [| apply grows_clean_amount, grows_clean_gender, grows_clean_age,
         grows_clean_member_id, grows_drop_duplicates, Hkeys;
       unfold key_columns; set_solver].
  revert H0. apply frame_rel_each.
  intros col f' Hcol. by apply clean_condition_rel.
Qed.

(** ** The cost per claim of a clean row *)

Lemma cost_per_claim_of_clean r c n :
  cell_at "total_cost" r = Num c -> cell_at "total_claims" r = Num n ->
  (0 <= n)%Q ->
  cost_per_claim_of r = Num (if Qeq_bool n 0 then 0 else c / n)%Q.
Proof.
  intros Hc Hn Hpos. unfold cost_per_claim_of. rewrite Hc, Hn. simpl.
  destruct (Qle_bool n 0) eqn:Hle; simpl.
  - apply Qle_bool_iff in Hle.
    assert (Hz : (n == 0)%Q) by lra.
    apply Qeq_bool_iff in Hz. by rewrite Hz.
  - destruct (Qeq_bool n 0) eqn:Hz; [| done].
    apply Qeq_bool_iff in Hz.
    assert (Hle' : Qle_bool n 0 = true) by (apply Qle_bool_iff; lra).
    congruence.
Qed.

Lemma after_features_numeric pd r0 r k :
  after_features pd r0 r -> k ∈ tracked_columns ->
  exists q, cell_at k r = Num q.
Proof.
  intros [[_ (Ha & Hc & Hn)] Hcpc] Hk.
  destruct Ha as (a & Ha & _), Hc as (c & Hc & _), Hn as (n & Hn & Hpos & _).
  unfold tracked_columns in Hk.
  repeat (apply elem_of_cons in Hk as [-> | Hk]); eauto.
  - rewrite Hcpc, (cost_per_claim_of_clean r c n Hc Hn Hpos). eauto.
  - by apply elem_of_nil in Hk.
Qed.

(** ** What the later blocks do to the tracked columns *)

Section feature_rel.
Context (pd : Pandas) (f0 : DataFrame).
Notation G := (well_formed pd).
Notation keeps F :=
  (forall f, frame_rel G (after_features pd) f0 f ->
             frame_rel G (after_features pd) f0 (F f)).

Lemma add_cost_per_claim_rel f :
  "total_cost" ∈ column_names f -> "total_claims" ∈ column_names f ->
  frame_rel G (after_clean pd) f0 f ->
  frame_rel G (after_features pd) f0 (add_cost_per_claim_frame f).
Proof.
  intros Hcost Hclaims Hrel. unfold add_cost_per_claim_frame.
  rewrite (proj2 (has_column_true _ _) Hcost),
          (proj2 (has_column_true _ _) Hclaims). simpl.
  apply frame_rel_assign with (after_clean pd); [done |].
  intros r0 r Hc.
  assert (Hag : agree_on key_columns r
                  (<["cost_per_claim" := cost_per_claim_of r]> r))
    by (apply agree_on_insert; unfold key_columns; set_solver).
  split; [by apply after_clean_agree with r |].
  by rewrite cell_at_insert_eq, (cost_per_claim_agree _ _ Hag).
Qed.

Lemma assign_untracked_rel c dt g :
  c ∉ tracked_columns -> keeps (assign c dt g).
Proof.
  intros Hc f Hrel.
  by apply frame_rel_assign_other with tracked_columns;
    [| apply after_features_agree |].
Qed.

Lemma add_age_group_rel : keeps add_age_group_frame.
Proof.
  intros f Hrel. unfold add_age_group_frame.
  destruct (has_column "age" f); [| done].
  apply assign_untracked_rel; [| done]. unfold tracked_columns. set_solver.
Qed.

Lemma add_condition_count_rel name avail :
  name ∉ tracked_columns -> keeps (add_condition_count_frame name avail).
Proof.
  intros Hn f Hrel. unfold add_condition_count_frame.
  destruct avail; by apply assign_untracked_rel.
Qed.

Lemma add_top_flag_rel col flag :
  flag ∉ tracked_columns -> keeps (add_top_flag_frame pd col flag).
Proof.
  intros Hn f Hrel. unfold add_top_flag_frame.
  destruct (has_column col f); [| done]. by apply assign_untracked_rel.
Qed.

Lemma add_risk_flags_rel : keeps add_risk_flags_frame.
Proof.
  intros f Hrel. unfold add_risk_flags_frame.
  destruct (has_column "age" f); [| done].
  do 2 (apply assign_untracked_rel; [unfold tracked_columns; set_solver |]).
  done.
Qed.

(** Filling missing values changes no number. *)
Lemma fill_column_rel dt v col : keeps (fill_column_frame dt v col).
Proof.
  intros f Hrel. unfold fill_column_frame.
  destruct (has_column col f); [| done].
  apply frame_rel_assign with (after_features pd); [done |].
  intros r0 r Hr. apply after_features_agree with r; [done |].
  intros k Hk. rewrite cell_at_insert.
  destruct (decide (col = k)) as [-> | Hne]; [| done].
  destruct (after_features_numeric pd r0 r k Hr Hk) as [q ->]. done.
Qed.

Lemma handle_missing_values_rel : keeps handle_missing_values_frame.
Proof.
  intros f Hrel. unfold handle_missing_values_frame. cbv zeta.
  apply frame_rel_each; [intros col f' _; apply fill_column_rel |].
  apply frame_rel_each; [intros col f' _; apply fill_column_rel |].
  done.
Qed.

Lemma add_derived_features_rel f :
  "total_cost" ∈ column_names f -> "total_claims" ∈ column_names f ->
  frame_rel G (after_clean pd) f0 f ->
  frame_rel G (after_features pd) f0 (add_derived_features_frame pd f).
Proof.
  intros Hcost Hclaims Hrel. unfold add_derived_features_frame. cbv zeta.
  apply add_risk_flags_rel.
  do 2 (apply add_top_flag_rel; [unfold tracked_columns; set_solver |]).
  do 3 (apply add_condition_count_rel;
        [unfold tracked_columns; set_solver |]).
  apply add_age_group_rel. by apply add_cost_per_claim_rel.
Qed.

End feature_rel.

(** The rows of the processed frame are the well-formed rows of the frame
    without duplicates, cleaned, each with its cost per claim. *)
Lemma processed_rel pd f :
  (forall k, k ∈ key_columns -> k ∈ column_names f) ->
  frame_rel (well_formed pd) (after_features pd)
    (frame_drop_duplicates f) (processed_frame pd f).
Proof.
  intros Hkeys. unfold processed_frame.
  apply handle_missing_values_rel.
  apply add_derived_features_rel.
  - apply grows_clean_data, Hkeys. unfold key_columns. set_solver.
  - apply grows_clean_data, Hkeys. unfold key_columns. set_solver.
  - by apply clean_data_rel.
Qed.

(** A row linked to [r0] whose key cells are numbers is [r0] cleaned. *)
Lemma after_clean_cleaned pd r0 r :
  after_clean pd r0 r -> cleaned_from pd r0 r /\ well_formed pd r0.
Proof.
  intros [Hl (Ha & Hc & Hn)].
  assert (Hk : forall k, k ∈ key_columns ->
            (exists q, cell_at k r = Num q) ->
            cell_at k r = to_numeric pd (cell_at k r0)).
  { intros k Hk [q Hq]. rewrite <- (Hl k Hk), Hq. reflexivity. }
  assert (Hage : cell_at "age" r = to_numeric pd (cell_at "age" r0)).
  { apply Hk; [unfold key_columns; set_solver |].
    destruct Ha as (q & -> & _). eauto. }
  assert (Hcost : cell_at "total_cost" r =
                  to_numeric pd (cell_at "total_cost" r0)).
  { apply Hk; [unfold key_columns; set_solver |].
    destruct Hc as (q & -> & _). eauto. }
  assert (Hclaims : cell_at "total_claims" r =
                    to_numeric pd (cell_at "total_claims" r0)).
  { apply Hk; [unfold key_columns; set_solver |].
    destruct Hn as (q & -> & _). eauto. }
  split; [done |]. unfold well_formed. by rewrite <- Hage, <- Hcost, <- Hclaims.
Qed.

Lemma required_keys f :
  (forall c, c ∈ required_columns ClaimsProcessor_init -> c ∈ column_names f) ->
  forall k, k ∈ key_columns -> k ∈ column_names f.
Proof.
  intros Hreq k Hk. apply Hreq. unfold key_columns in Hk. simpl. set_solver.
Qed.

(** ** The sample store *)

Lemma sample_lookup : sample_store !! 7%nat = Some sample_frame.
Proof. reflexivity. Qed.

Lemma sample_has_required :
  forall c, c ∈ required_columns ClaimsProcessor_init ->
            c ∈ column_names sample_frame.
Proof.
  intros c Hc. simpl in Hc. unfold column_names. simpl. set_solver.
Qed.

(** On the sample, the rows with the negative age and the negative cost and
    the second copy of member [a] are gone; member [a], with no claim, has
    cost per claim 0. *)
Example process_claims_sample :
  exists l' h' f',
    process_claims sample_pandas ClaimsProcessor_init 7 sample_store
      = (Ok l', h') /\
    h' !! l' = Some f' /\
    (df_rows f').*1 = [0%nat; 2%nat] /\
    (fun ir : nat * gmap string cell => cell_at "cost_per_claim" ir.2)
      <$> df_rows f' = [Num 0; Num (300 # 3)].
Proof.
  eexists _, _, _. split; [by vm_compute |]. split; [by vm_compute |].
  split; by vm_compute.
Qed.

(** ** Statements about [ClaimsProcessor] *)



(** C7. [process_claims] fails if and only if a required column
    ([member_id], [age], [gender], [total_cost], [total_claims]) is absent,
    and then with the [ValueError] that names the absent columns; with the
    required columns there it returns, whichever optional condition columns
    are absent. *)
Theorem process_claims_schema_error (pd : Pandas) (h : gmap nat DataFrame)
    (l : nat) (f : DataFrame) :
  h !! l = Some f ->
  ((exists e h', process_claims pd ClaimsProcessor_init l h = (Raise e, h')) <->
   (exists c, c ∈ ["member_id"; "age"; "gender"; "total_cost"; "total_claims"]
              /\ c ∉ column_names f)) /\
  (forall e h',
     process_claims pd ClaimsProcessor_init l h = (Raise e, h') ->
     e = ValueError ("Missing required columns: " ++
           repr_list (filter (fun col => col ∉ column_names f)
                        (required_columns ClaimsProcessor_init)))) /\
  ((forall c, c ∈ required_columns ClaimsProcessor_init ->
              c ∈ column_names f) ->
   forall absent, absent ⊆ optional_columns ClaimsProcessor_init ->
     (forall o, o ∈ absent -> o ∉ column_names f) ->
     exists l' h', process_claims pd ClaimsProcessor_init l h = (Ok l', h')).
Proof.
  intros Hl.
  change ["member_id"; "age"; "gender"; "total_cost"; "total_claims"]
    with (required_columns ClaimsProcessor_init).
  destruct (filter (fun col => col ∉ column_names f)
              (required_columns ClaimsProcessor_init)) as [| c cs] eqn:E.
  - pose proof (proj1 (missing_nil ClaimsProcessor_init f) E) as Hreq.
    destruct (process_claims_ok pd ClaimsProcessor_init h l f Hl Hreq)
      as (l' & h' & Hrun & _).
    split; [split |]; [| | split].
    + intros (e & h'' & Hraise). congruence.
    + intros (c & Hc & Hn). by destruct (Hn (Hreq c Hc)).
    + intros e h'' Hraise. congruence.
    + intros _ absent _ _. eauto.
  - pose proof (process_claims_missing pd ClaimsProcessor_init h l f c cs
                  Hl E) as Hraise.
    assert (Hc : c ∈ required_columns ClaimsProcessor_init /\
                 c ∉ column_names f).
    { assert (Hin : c ∈ c :: cs) by (apply elem_of_cons; by left).
      rewrite <- E in Hin. apply list_elem_of_filter in Hin. tauto. }
    split; [split |]; [| | split].
    + intros _. exists c. done.
    + intros _. eauto.
    + intros e h'' Hraise'. congruence.
    + intros Hreq. destruct Hc as [Hc Hn]. by destruct (Hn (Hreq c Hc)).
Qed.

Lemma process_claims_schema_error_witness :
  exists l' h',
    process_claims sample_pandas ClaimsProcessor_init 7 sample_store
      = (Ok l', h').
Proof.
  destruct (process_claims_schema_error sample_pandas sample_store 7
              sample_frame sample_lookup) as (_ & _ & Hok).
  apply (Hok sample_has_required (optional_columns ClaimsProcessor_init)).
  - done.
  - intros o Ho. simpl in Ho. unfold column_names. simpl. set_solver.
Defined.

(** Without the [age] column the call raises, and says so. *)
Example process_claims_no_age :
  (process_claims sample_pandas ClaimsProcessor_init 7
     {[ 7%nat := sample_frame_no_age ]}).1
  = Raise (ValueError "Missing required columns: ['age']").
Proof. by vm_compute. Qed.



(** C10. [process_claims] does not change its argument: after the call,
    whether it returned or raised, the store holds at the caller's reference
    the frame it held before, and so for every frame that was there; the
    frame returned lives at a new location. *)
Theorem process_claims_no_mutation (pd : Pandas) (self : ClaimsProcessor)
    (l : nat) (h : gmap nat DataFrame) :
  (process_claims pd self l h).2 !! l = h !! l /\
  (forall k, k ∈ dom h -> (process_claims pd self l h).2 !! k = h !! k) /\
  (forall l', (process_claims pd self l h).1 = Ok l' -> l' ∉ dom h).
Proof.
  destruct (h !! l) as [f |] eqn:Hl.
  - destruct (filter (fun col => col ∉ column_names f)
                (required_columns self)) as [| c cs] eqn:E.
    + pose proof (proj1 (missing_nil self f) E) as Hreq.
      destruct (process_claims_ok pd self h l f Hl Hreq)
        as (l' & h' & Hrun & _ & Hnew & Hkeep).
      rewrite Hrun. simpl. split; [| split].
      * rewrite Hkeep; [done |]. apply elem_of_dom. eauto.
      * exact Hkeep.
      * intros l'' Heq. by injection Heq as <-.
    + rewrite (process_claims_missing pd self h l f c cs Hl E). simpl.
      assert (Hfresh : forall k, k ∈ dom h ->
                (<[fresh (dom h) := f]> h) !! k = h !! k).
      { intros k Hk. rewrite lookup_insert_ne; [done |].
        intros <-. by apply is_fresh in Hk. }
      split; [| split].
      * rewrite Hfresh; [done |]. apply elem_of_dom. eauto.
      * exact Hfresh.
      * intros l' Heq. discriminate.
  - rewrite (process_claims_dangling pd self h l Hl). simpl.
    split; [done |]. split; [done |]. intros l' Heq. discriminate.
Qed.

Lemma process_claims_no_mutation_witness :
  (process_claims sample_pandas ClaimsProcessor_init 7 sample_store).2
    !! 7%nat = Some sample_frame.
Proof.
  destruct (process_claims_no_mutation sample_pandas ClaimsProcessor_init 7
              sample_store) as (_ & Hkeep & _).
  rewrite Hkeep; [reflexivity |]. apply elem_of_dom. by eexists.
Defined.
